(** * assemble_vintf: classification, build-flag injection and emission

    A shallow embedding of [src/assemble_vintf.cpp].  The class
    [AssembleVintf] becomes a record, its member functions become
    computations in a small state-and-log monad, and the parts of libvintf
    that the tool only calls (the two XML converters, the string parsers,
    matrix generation and the compatibility check) are the fields of the
    class [VintfLib]. *)

From Stdlib Require Import String Ascii List Bool Arith ZArith NArith Lia.
From Stdlib Require Import DecimalString.
Import ListNotations.
Local Open Scope string_scope.

(** ** Data of libvintf that the tool touches *)

(** Modelled from the spec: the header declaring [SchemaType] is absent;
    the spec gives the subtype tag two values, and the tool compares it
    with [SchemaType::DEVICE] and [SchemaType::FRAMEWORK]. *)
Inductive SchemaType := DEVICE | FRAMEWORK.

(** [Version]: the tool reads [majorVer] and [minorVer] (both [size_t]). *)
Record Version := mkVersion { majorVer : N; minorVer : N }.

Definition KernelSepolicyVersion := N.

(** Modelled from the spec: the header declaring [Sepolicy] is absent; the
    spec describes the requirement as a kernel-policy version and a set of
    (major, minor) userspace-policy pairs, and the tool builds it from a
    kernel version and the braced list [{{majorVer, minorVer}}]. *)
Record Sepolicy := mkSepolicy {
  kernelSepolicyVersion : KernelSepolicyVersion;
  sepolicyVersions : list (N * N)
}.

Module HalManifest.
Record Device := mkDevice { mSepolicyVersion : Version }.

(** [contents] stands for every member the tool never reads or writes. *)
Record t (Contents : Type) := mk {
  mType : SchemaType;
  device : Device;
  contents : Contents
}.
Arguments mk {Contents}.
Arguments mType {Contents}.
Arguments device {Contents}.
Arguments contents {Contents}.

(** [halManifest->device.mSepolicyVersion = v] *)
Definition set_mSepolicyVersion {C} (m : t C) (v : Version) : t C :=
  mk (mType m) (mkDevice v) (contents m).
End HalManifest.

Module CompatibilityMatrix.
Record Framework := mkFramework { mSepolicy : Sepolicy }.

Record t (Contents : Type) := mk {
  mType : SchemaType;
  framework : Framework;
  contents : Contents
}.
Arguments mk {Contents}.
Arguments mType {Contents}.
Arguments framework {Contents}.
Arguments contents {Contents}.

(** [matrix->framework.mSepolicy = s] *)
Definition set_mSepolicy {C} (m : t C) (s : Sepolicy) : t C :=
  mk (mType m) (mkFramework s) (contents m).
End CompatibilityMatrix.

(** An [XmlConverter<Object>] as the tool uses it: [operator()(Object*,
    const std::string&)] either fills the object or fails leaving a message
    for [lastError()], and [operator()(const Object&)] serializes. *)
Class XmlConverter (Object : Type) := {
  deserialize : string -> string + Object;
  serialize : Object -> string
}.

(** The capabilities of libvintf consumed by the tool.  Their code is not
    part of [assemble_vintf.cpp]; every result below holds for any
    implementation of them. *)
Class VintfLib := {
  ManifestContents : Type;
  MatrixContents : Type;
  gHalManifestConverter : XmlConverter (HalManifest.t ManifestContents);
  gCompatibilityMatrixConverter :
    XmlConverter (CompatibilityMatrix.t MatrixContents);
  (** [parse] at type [Version] *)
  parse_Version : string -> option Version;
  (** [parse] at type [KernelSepolicyVersion] *)
  parse_KernelSepolicyVersion : string -> option KernelSepolicyVersion;
  generateCompatibleMatrix :
    HalManifest.t ManifestContents -> CompatibilityMatrix.t MatrixContents;
  (** [checkCompatibility(mat, &error)]: the verdict and the content of
      [error] afterwards, given its content before the call. *)
  checkCompatibility :
    HalManifest.t ManifestContents -> CompatibilityMatrix.t MatrixContents ->
    string -> bool * string
}.

(** What the process gets from its host: the environment, the files that
    can be opened for reading (with their content when the process
    starts) and the paths that can be opened for writing.  Two paths are
    taken to name two files.  The file system is not modelled further:
    that opening a file for writing empties it, and that what is written
    to it can be read back, is not recorded, so the content given here is
    what a stream delivers for the files that no [-o] names. *)
Record Host := mkHost {
  getenv : string -> option string;
  readable : string -> option string;
  writable : string -> bool
}.

(** ** Streams, events and the state of a run *)

(** An [std::ifstream]: [None] when not open, otherwise the part of the
    file that has not been read yet. *)
Definition ifstream := option string.

(** An [std::ofstream]: [None] when not open, otherwise the path. *)
Definition ofstream := option string.

Inductive ostream := std_cout | out_file (f : ofstream).

Inductive input_id := InFile | CheckFile.

Inductive procedure := AssembleHalManifest | AssembleCompatibilityMatrix.

(** What a run does that can be seen from outside, in order.  [EvEnter] is
    a ghost event: it marks the entry of an assembly procedure. *)
Inductive event :=
| EvGetenv (key : string)
| EvCerr (text : string)
| EvOut (o : ostream) (text : string)
| EvFlush (o : ostream)
| EvRead (f : input_id)
| EvEnter (p : procedure).

Record AssembleVintf := mkAssembleVintf {
  mInFile : ifstream;
  mOutFileRef : option ofstream;
  mCheckFile : ifstream;
  mOutputMatrix : bool
}.

(** The object together with the two global converters' [mLastError]. *)
Record State := mkState {
  this : AssembleVintf;
  manifestLastError : string;
  matrixLastError : string
}.

Record Result (A : Type) := mkResult {
  value : A;
  final : State;
  events : list event
}.
Arguments mkResult {A}.
Arguments value {A}.
Arguments final {A}.
Arguments events {A}.

Definition M (A : Type) : Type := State -> Result A.

Definition ret {A} (a : A) : M A := fun s => mkResult a s [].

Definition bind {A B} (m : M A) (f : A -> M B) : M B :=
  fun s =>
    let r := m s in
    let r' := f (value r) (final r) in
    mkResult (value r') (final r') (events r ++ events r')%list.

Declare Scope run_scope.
Delimit Scope run_scope with run.
Notation "x <- c ;; k" := (bind c (fun x => k))
  (at level 100, c at next level, right associativity) : run_scope.
Notation "c ;; k" := (bind c (fun _ => k))
  (at level 100, right associativity) : run_scope.
Local Open Scope run_scope.

Definition emit (e : event) : M unit := fun s => mkResult tt s [e].

Definition get_this : M AssembleVintf := fun s => mkResult (this s) s [].

Definition set_this (a : AssembleVintf) : M unit :=
  fun s => mkResult tt (mkState a (manifestLastError s) (matrixLastError s)) [].

Definition endl : string := String (ascii_of_nat 10) EmptyString.

(** [std::cerr << ... << std::endl] *)
Definition cerr (text : string) : M unit := emit (EvCerr text).

Definition is_open (f : ifstream) : bool :=
  match f with Some _ => true | None => false end.

(** [out()] *)
Definition out (a : AssembleVintf) : ostream :=
  match mOutFileRef a with
  | None => std_cout
  | Some f => out_file f
  end.

(** Text sent to the output stream by a sequence of events. *)
Fixpoint written (evs : list event) : string :=
  match evs with
  | [] => ""
  | EvOut _ s :: evs' => s ++ written evs'
  | _ :: evs' => written evs'
  end.

(** ** The class [AssembleVintf] *)

Section Assemble.
Context {L : VintfLib}.
Variable host : Host.

Definition HalManifest := HalManifest.t ManifestContents.
Definition CompatibilityMatrix := CompatibilityMatrix.t MatrixContents.

Definition call_getenv (key : string) : M (option string) :=
  fun s => mkResult (getenv host key) s [EvGetenv key].

Definition msg_required (key : string) : string :=
  "Required " ++ key ++ " flag." ++ endl.

Definition msg_cannot_parse (envValue : string) : string :=
  "Cannot parse " ++ envValue ++ "." ++ endl.

(** [getFlag]: the boolean result and the out-parameter are merged into
    an option, [Some v] for [true] with [*value = v]. *)
Definition getFlag {T} (parse : string -> option T) (key : string)
  : M (option T) :=
  envValue <- call_getenv key ;;
  match envValue with
  | None => cerr (msg_required key) ;; ret None
  | Some envValue =>
      match parse envValue with
      | None => cerr (msg_cannot_parse envValue) ;; ret None
      | Some v => ret (Some v)
      end
  end.

Definition rest_of (f : ifstream) : string :=
  match f with Some text => text | None => "" end.

Definition drained (f : ifstream) : ifstream :=
  match f with Some _ => Some "" | None => None end.

(** [read(is)]: everything left in the stream, which is then at its end. *)
Definition read (f : input_id) : M string :=
  fun s =>
    let a := this s in
    match f with
    | InFile =>
        mkResult (rest_of (mInFile a))
          (mkState (mkAssembleVintf (drained (mInFile a)) (mOutFileRef a)
                      (mCheckFile a) (mOutputMatrix a))
             (manifestLastError s) (matrixLastError s))
          [EvRead InFile]
    | CheckFile =>
        mkResult (rest_of (mCheckFile a))
          (mkState (mkAssembleVintf (mInFile a) (mOutFileRef a)
                      (drained (mCheckFile a)) (mOutputMatrix a))
             (manifestLastError s) (matrixLastError s))
          [EvRead CheckFile]
    end.

(** [gHalManifestConverter(&object, xml)] *)
Definition convertHalManifest (xml : string) : M (option HalManifest) :=
  fun s =>
    match deserialize (XmlConverter := gHalManifestConverter) xml with
    | inr object => mkResult (Some object) s []
    | inl e => mkResult None (mkState (this s) e (matrixLastError s)) []
    end.

(** [gCompatibilityMatrixConverter(&object, xml)] *)
Definition convertCompatibilityMatrix (xml : string)
  : M (option CompatibilityMatrix) :=
  fun s =>
    match deserialize (XmlConverter := gCompatibilityMatrixConverter) xml with
    | inr object => mkResult (Some object) s []
    | inl e => mkResult None (mkState (this s) (manifestLastError s) e) []
    end.

Definition lastError_manifest : M string :=
  fun s => mkResult (manifestLastError s) s [].

Definition lastError_matrix : M string :=
  fun s => mkResult (matrixLastError s) s [].

Definition skeleton_header : string :=
  "<!-- " ++ endl ++
  "    Autogenerated skeleton compatibility matrix. " ++ endl ++
  "    Use with caution. Modify it to suit your needs." ++ endl ++
  "    All HALs are set to optional." ++ endl ++
  "    Many entries other than HALs are zero-filled and" ++ endl ++
  "    require human attention. " ++ endl ++
  "-->" ++ endl.

Definition msg_fatal (error : string) : string :=
  "FATAL ERROR: cannot generate a compatible matrix: " ++ error ++ endl.

Definition msg_check_matrix (lastError : string) : string :=
  "Cannot parse check file as a compatibility matrix: " ++ lastError ++ endl.

Definition msg_check_manifest (lastError : string) : string :=
  "Cannot parse check file as a HAL manifest: " ++ lastError ++ endl.

Definition msg_not_compatible (error : string) : string :=
  "Not compatible: " ++ error ++ endl.

(** The constructor call [Sepolicy(kernelSepolicyVers,
    {{sepolicyVers.majorVer, sepolicyVers.minorVer}})]. *)
Definition new_Sepolicy (kernelSepolicyVers : KernelSepolicyVersion)
    (sepolicyVers : Version) : Sepolicy :=
  mkSepolicy kernelSepolicyVers
    [(majorVer sepolicyVers, minorVer sepolicyVers)].

(** [assembleHalManifest] (lines 63-105): the result, and the object
    behind the pointer when the call returns. *)
Definition assembleHalManifest (halManifest : HalManifest)
  : M (bool * HalManifest) :=
  emit (EvEnter AssembleHalManifest) ;;
  flag <-
    (match HalManifest.mType halManifest with
     | DEVICE =>
         v <- getFlag parse_Version "BOARD_SEPOLICY_VERS" ;;
         ret (option_map (HalManifest.set_mSepolicyVersion halManifest) v)
     | FRAMEWORK => ret (Some halManifest)
     end) ;;
  match flag with
  | None => ret (false, halManifest)
  | Some halManifest =>
      a <- get_this ;;
      error <-
        (if mOutputMatrix a then
           let generatedMatrix := generateCompatibleMatrix halManifest in
           let (ok, error) :=
             checkCompatibility halManifest generatedMatrix "" in
           (if ok then ret tt else cerr (msg_fatal error)) ;;
           emit (EvOut (out a) skeleton_header) ;;
           emit (EvOut (out a)
                   (serialize (XmlConverter := gCompatibilityMatrixConverter)
                      generatedMatrix)) ;;
           ret error
         else
           emit (EvOut (out a)
                   (serialize (XmlConverter := gHalManifestConverter)
                      halManifest)) ;;
           ret "") ;;
      emit (EvFlush (out a)) ;;
      if is_open (mCheckFile a) then
        xml <- read CheckFile ;;
        checkMatrix <- convertCompatibilityMatrix xml ;;
        match checkMatrix with
        | None =>
            e <- lastError_matrix ;;
            cerr (msg_check_matrix e) ;; ret (false, halManifest)
        | Some checkMatrix =>
            let (ok, error) :=
              checkCompatibility halManifest checkMatrix error in
            if ok then ret (true, halManifest)
            else cerr (msg_not_compatible error) ;; ret (false, halManifest)
        end
      else ret (true, halManifest)
  end.

(** [assembleCompatibilityMatrix] (lines 107-139); the local [error] is
    still empty when the reference check starts. *)
Definition assembleCompatibilityMatrix (matrix : CompatibilityMatrix)
  : M (bool * CompatibilityMatrix) :=
  emit (EvEnter AssembleCompatibilityMatrix) ;;
  flags <-
    (match CompatibilityMatrix.mType matrix with
     | FRAMEWORK =>
         sepolicyVers <- getFlag parse_Version "BOARD_SEPOLICY_VERS" ;;
         match sepolicyVers with
         | None => ret None
         | Some sepolicyVers =>
             kernelSepolicyVers <-
               getFlag parse_KernelSepolicyVersion "POLICYVERS" ;;
             match kernelSepolicyVers with
             | None => ret None
             | Some kernelSepolicyVers =>
                 ret (Some (CompatibilityMatrix.set_mSepolicy matrix
                              (new_Sepolicy kernelSepolicyVers sepolicyVers)))
             end
         end
     | DEVICE => ret (Some matrix)
     end) ;;
  match flags with
  | None => ret (false, matrix)
  | Some matrix =>
      a <- get_this ;;
      emit (EvOut (out a)
              (serialize (XmlConverter := gCompatibilityMatrixConverter)
                 matrix)) ;;
      emit (EvFlush (out a)) ;;
      if is_open (mCheckFile a) then
        xml <- read CheckFile ;;
        checkManifest <- convertHalManifest xml ;;
        match checkManifest with
        | None =>
            e <- lastError_manifest ;;
            cerr (msg_check_manifest e) ;; ret (false, matrix)
        | Some checkManifest =>
            let (ok, error) := checkCompatibility checkManifest matrix "" in
            if ok then ret (true, matrix)
            else cerr (msg_not_compatible error) ;; ret (false, matrix)
        end
      else ret (true, matrix)
  end.

Definition msg_unknown_format (manifestError matrixError : string) : string :=
  "Input file has unknown format." ++ endl ++
  "Error when attempting to convert to manifest: " ++ manifestError ++ endl ++
  "Error when attempting to convert to compatibility matrix: " ++
  matrixError ++ endl.

(** [assemble] (lines 141-169).  Each [done] is the [return true] of the
    inner [if]: the function goes on when the conversion or the assembly
    fails. *)
Definition assemble : M bool :=
  a <- get_this ;;
  if negb (is_open (mInFile a)) then
    cerr ("Missing input file." ++ endl) ;; ret false
  else
    fileContent <- read InFile ;;
    halManifest <- convertHalManifest fileContent ;;
    done <-
      (match halManifest with
       | Some halManifest =>
           r <- assembleHalManifest halManifest ;; ret (fst r)
       | None => ret false
       end) ;;
    if done then ret true
    else
      matrix <- convertCompatibilityMatrix fileContent ;;
      done <-
        (match matrix with
         | Some matrix =>
             r <- assembleCompatibilityMatrix matrix ;; ret (fst r)
         | None => ret false
         end) ;;
      if done then ret true
      else
        e1 <- lastError_manifest ;;
        e2 <- lastError_matrix ;;
        cerr (msg_unknown_format e1 e2) ;; ret false.

(** [openInFile]: opening a stream that is already open fails and leaves
    it open on its first file, so [is_open()] still answers true. *)
Definition openInFile (path : string) : M bool :=
  a <- get_this ;;
  match mInFile a with
  | Some _ => ret true
  | None =>
      set_this (mkAssembleVintf (readable host path) (mOutFileRef a)
                  (mCheckFile a) (mOutputMatrix a)) ;;
      ret (is_open (readable host path))
  end.

Definition openCheckFile (path : string) : M bool :=
  a <- get_this ;;
  match mCheckFile a with
  | Some _ => ret true
  | None =>
      set_this (mkAssembleVintf (mInFile a) (mOutFileRef a)
                  (readable host path) (mOutputMatrix a)) ;;
      ret (is_open (readable host path))
  end.

(** [openOutFile]: a fresh stream replaces the previous one.  The file
    at [path] is created or emptied by the call; see [Host] for what that
    means for a file that is also read. *)
Definition openOutFile (path : string) : M bool :=
  a <- get_this ;;
  let f : ofstream := if writable host path then Some path else None in
  set_this (mkAssembleVintf (mInFile a) (Some f) (mCheckFile a)
              (mOutputMatrix a)) ;;
  ret (is_open f).

Definition setOutputMatrix : M unit :=
  a <- get_this ;;
  set_this (mkAssembleVintf (mInFile a) (mOutFileRef a) (mCheckFile a) true).
End Assemble.

(** ** [main] *)

(** One result of [getopt_long] with the option string ["hi:o:mc:"]: an
    option character with its [optarg], or ['?'] for an option that is not
    in the string or lacks its argument.  [opterr] is left as it is, so
    before it returns ['?'] [getopt_long] writes a line of its own to the
    error stream: [message] is that line.

    [getopt_long] is the C library's.  A list of [cli_option] stands for
    the results it returns, one after the other, for the arguments of the
    process; how it finds them in [argv], which may depend on the
    environment of the process, is not part of the tool. *)
Inductive cli_option :=
| Opt_i (optarg : string)
| Opt_o (optarg : string)
| Opt_m
| Opt_c (optarg : string)
| Opt_h
| Opt_unrecognized (message : string).

Definition help_text : string :=
  "assemble_vintf: Checks if a given manifest / matrix file is valid and " ++ endl ++
  "    fill in build-time flags into the given file." ++ endl ++
  "assemble_vintf -h" ++ endl ++
  "               Display this help text." ++ endl ++
  "assemble_vintf -i <input file> [-o <output file>] [-m] [-c [<check file>]]" ++ endl ++
  "               [--kernel=<version>:<android-base.cfg>]" ++ endl ++
  "               Fill in build-time flags into the given file." ++ endl ++
  "    -i <input file>" ++ endl ++
  "               Input file. Format is automatically detected." ++ endl ++
  "    -o <output file>" ++ endl ++
  "               Optional output file. If not specified, write to stdout." ++ endl ++
  "    -m" ++ endl ++
  "               a compatible compatibility matrix is" ++ endl ++
  "               generated instead; for example, given a device manifest," ++ endl ++
  "               a framework compatibility matrix is generated. This flag" ++ endl ++
  "               is ignored when input is a compatibility matrix." ++ endl ++
  "    -c [<check file>]" ++ endl ++
  "               After writing the output file, check compatibility between" ++ endl ++
  "               output file and check file." ++ endl ++
  "               If -c is set but the check file is not specified, a warning" ++ endl ++
  "               message is written to stderr. Return 0." ++ endl ++
  "               If the check file is specified but is not compatible, an error" ++ endl ++
  "               message is written to stderr. Return 1." ++ endl.

Definition help : M unit := cerr help_text.

Definition msg_failed_to_open (optarg : string) : string :=
  "Failed to open " ++ optarg ++ endl.

Definition msg_no_check (inFilePath : string) : string :=
  "WARNING: no compatibility check is done on " ++ inFilePath ++ endl.

Definition initial_state : State :=
  mkState (mkAssembleVintf None None None false) "" "".

Definition exit_code (success : bool) : Z := if success then 0%Z else 1%Z.

Section Main.
Context {L : VintfLib}.
Variable host : Host.

(** The [while] loop of [main] over the options [getopt_long] yields;
    [Some code] is a [return code] from inside the loop. *)
Fixpoint option_loop (opts : list cli_option) (inFilePath : string)
  : M (option Z) :=
  match opts with
  | [] => ret None
  | Opt_i optarg :: rest =>
      ok <- openInFile host optarg ;;
      if ok then option_loop rest optarg
      else cerr (msg_failed_to_open optarg) ;; ret (Some 1%Z)
  | Opt_o optarg :: rest =>
      ok <- openOutFile host optarg ;;
      if ok then option_loop rest inFilePath
      else cerr (msg_failed_to_open optarg) ;; ret (Some 1%Z)
  | Opt_m :: rest => setOutputMatrix ;; option_loop rest inFilePath
  | Opt_c optarg :: rest =>
      if negb (String.length optarg =? 0)%nat then
        ok <- openCheckFile host optarg ;;
        if ok then option_loop rest inFilePath
        else cerr (msg_failed_to_open optarg) ;; ret (Some 1%Z)
      else cerr (msg_no_check inFilePath) ;; option_loop rest inFilePath
  | Opt_h :: _ => help ;; ret (Some 1%Z)
  | Opt_unrecognized message :: _ => cerr message ;; help ;; ret (Some 1%Z)
  end.

(** The state in which [assemble] is called, when it is called. *)
Definition configure (opts : list cli_option) : Result (option Z) :=
  option_loop opts "" initial_state.

Definition main_body (opts : list cli_option) : M Z :=
  returned <- option_loop opts "" ;;
  match returned with
  | Some code => ret code
  | None => success <- assemble host ;; ret (exit_code success)
  end.

Definition main (opts : list cli_option) : Result Z :=
  main_body opts initial_state.
End Main.

(** ** A small libvintf to run the tool on

    Documents are lines of text: a manifest is any text that starts with
    neither [X] nor [?], a matrix any text that starts with neither [M] nor
    [?]; the second character [f] makes the document framework-side.  A
    manifest satisfies a matrix when its text is a prefix of the matrix's;
    the matrix generated from a manifest keeps the first eight characters
    of its text. *)
Module Toy.
Local Open Scope N_scope.
Definition kind_of (xml : string) : SchemaType :=
  match xml with
  | String _ (String "f"%char _) => FRAMEWORK
  | _ => DEVICE
  end.

Definition starts_with (c : ascii) (xml : string) : bool :=
  match xml with
  | String c' _ => Ascii.eqb c c'
  | EmptyString => false
  end.

Definition show_N (n : N) : string :=
  NilEmpty.string_of_uint (N.to_uint n).

Definition show_Version (v : Version) : string :=
  show_N (majorVer v) ++ "." ++ show_N (minorVer v).

Definition show_pairs (l : list (N * N)) : string :=
  String.concat "," (map (fun p => show_N (fst p) ++ "." ++ show_N (snd p)) l).

Definition show_SchemaType (t : SchemaType) : string :=
  match t with DEVICE => "device" | FRAMEWORK => "framework" end.

Definition manifest_of (xml : string) : HalManifest.t string :=
  HalManifest.mk (kind_of xml) (HalManifest.mkDevice (mkVersion 0 0)) xml.

Definition matrix_of (xml : string) : CompatibilityMatrix.t string :=
  CompatibilityMatrix.mk (kind_of xml)
    (CompatibilityMatrix.mkFramework (mkSepolicy 0 [])) xml.

#[local] Instance manifestConverter : XmlConverter (HalManifest.t string) := {
  deserialize xml :=
    if starts_with "X" xml || starts_with "?" xml then inl "not a manifest"
    else inr (manifest_of xml);
  serialize m :=
    "<manifest type=" ++ show_SchemaType (HalManifest.mType m) ++
    " sepolicy=" ++
    show_Version (HalManifest.mSepolicyVersion (HalManifest.device m)) ++
    ">" ++ HalManifest.contents m ++ "</manifest>"
}.

#[local] Instance matrixConverter
  : XmlConverter (CompatibilityMatrix.t string) := {
  deserialize xml :=
    if starts_with "M" xml || starts_with "?" xml then inl "not a matrix"
    else inr (matrix_of xml);
  serialize m :=
    let s := CompatibilityMatrix.mSepolicy (CompatibilityMatrix.framework m) in
    "<compatibility-matrix type=" ++
    show_SchemaType (CompatibilityMatrix.mType m) ++
    " kernel-sepolicy=" ++ show_N (kernelSepolicyVersion s) ++
    " sepolicy=" ++ show_pairs (sepolicyVersions s) ++
    ">" ++ CompatibilityMatrix.contents m ++ "</compatibility-matrix>"
}.

Definition parse_N (s : string) : option N :=
  match s with
  | EmptyString => None
  | _ => option_map N.of_uint (NilEmpty.uint_of_string s)
  end.

(** ["major.minor"] *)
Definition parseVersion (s : string) : option Version :=
  match index 0 "." s with
  | None => None
  | Some i =>
      match parse_N (substring 0 i s),
            parse_N (substring (S i) (String.length s - S i) s) with
      | Some a, Some b => Some (mkVersion a b)
      | _, _ => None
      end
  end.

Definition check (m : HalManifest.t string) (x : CompatibilityMatrix.t string)
    (error : string) : bool * string :=
  if prefix (HalManifest.contents m) (CompatibilityMatrix.contents x)
  then (true, error)
  else (false, "manifest is not a prefix of matrix").

#[local] Instance lib : VintfLib := {
  ManifestContents := string;
  MatrixContents := string;
  gHalManifestConverter := manifestConverter;
  gCompatibilityMatrixConverter := matrixConverter;
  parse_Version := parseVersion;
  parse_KernelSepolicyVersion := parse_N;
  generateCompatibleMatrix m :=
    CompatibilityMatrix.mk
      (match HalManifest.mType m with
       | DEVICE => FRAMEWORK | FRAMEWORK => DEVICE end)
      (CompatibilityMatrix.mkFramework (mkSepolicy 0%N []))
      (substring 0 8 (HalManifest.contents m) ++ "+");
  checkCompatibility := check
}.



(** A host with the given environment and two readable files, [in.xml]
    and [ref.xml]; every path can be written. *)
Definition host (env : list (string * string)) (input reference : string)
  : Host :=
  mkHost
    (fun key =>
       option_map snd (find (fun kv => String.eqb (fst kv) key) env))
    (fun path =>
       if String.eqb path "in.xml" then Some input
       else if String.eqb path "ref.xml" then Some reference
       else None)
    (fun _ => true).
End Toy.

(** ** Properties of traces *)

Definition is_cerr (e : event) : bool :=
  match e with EvCerr _ => true | _ => false end.

(** No text reaches the output stream. *)
Definition silent (evs : list event) : Prop :=
  forall o text, ~ In (EvOut o text) evs.

(** No environment variable is looked up. *)
Definition reads_no_env (evs : list event) : Prop :=
  forall key, ~ In (EvGetenv key) evs.

(** The check file is not read. *)
Definition no_check_read (evs : list event) : Prop :=
  ~ In (EvRead CheckFile) evs.


(** ** Vocabulary of the statements *)

Definition is_Opt_m (o : cli_option) : bool :=
  match o with Opt_m => true | _ => false end.

Definition env_or_cerr (e : event) : bool :=
  match e with EvGetenv _ | EvCerr _ => true | _ => false end.

(** What a reference check can log: nothing, or the read of the check
    file followed by at most a diagnostic. *)
Definition check_events (evs : list event) : Prop :=
  evs = [] \/
  exists tail, evs = EvRead CheckFile :: tail /\ forallb is_cerr tail = true.

(** The state once the input file has been read. *)
Definition after_read (s : State) : State := final (read InFile s).

(** The state once the check file has been read. *)
Definition after_check_read (s : State) : State := final (read CheckFile s).

Section Vocabulary.
Context {L : VintfLib}.
Variable host : Host.

(** *** The procedures cut into phases

    [assembleHalManifest] and [assembleCompatibilityMatrix] each inject,
    then emit, then check against the reference; [assemble] makes a
    manifest attempt, then a matrix attempt.  The phases are stated apart
    so that the claims can speak of them; [assembleHalManifest_eq],
    [assembleCompatibilityMatrix_eq] and [assemble_eq] relate them to the
    procedures. *)

(** The build flag a device manifest needs (lines 66-70). *)
Definition injectHalManifest (halManifest : HalManifest)
  : M (option HalManifest) :=
  match HalManifest.mType halManifest with
  | DEVICE =>
      v <- getFlag host parse_Version "BOARD_SEPOLICY_VERS" ;;
      ret (option_map (HalManifest.set_mSepolicyVersion halManifest) v)
  | FRAMEWORK => ret (Some halManifest)
  end.

(** Lines 72-89: what is written for a manifest, and the content of the
    local [error] afterwards. *)
Definition emitHalManifest (halManifest : HalManifest) : M string :=
  a <- get_this ;;
  error <-
    (if mOutputMatrix a then
       let generatedMatrix := generateCompatibleMatrix halManifest in
       let (ok, error) := checkCompatibility halManifest generatedMatrix "" in
       (if ok then ret tt else cerr (msg_fatal error)) ;;
       emit (EvOut (out a) skeleton_header) ;;
       emit (EvOut (out a)
               (serialize (XmlConverter := gCompatibilityMatrixConverter)
                  generatedMatrix)) ;;
       ret error
     else
       emit (EvOut (out a)
               (serialize (XmlConverter := gHalManifestConverter)
                  halManifest)) ;;
       ret "") ;;
  emit (EvFlush (out a)) ;;
  ret error.

(** Lines 91-104. *)
Definition checkHalManifest (halManifest : HalManifest) (error : string)
  : M bool :=
  a <- get_this ;;
  if is_open (mCheckFile a) then
    xml <- read CheckFile ;;
    checkMatrix <- convertCompatibilityMatrix xml ;;
    match checkMatrix with
    | None =>
        e <- lastError_matrix ;;
        cerr (msg_check_matrix e) ;; ret false
    | Some checkMatrix =>
        let (ok, error) := checkCompatibility halManifest checkMatrix error in
        if ok then ret true
        else cerr (msg_not_compatible error) ;; ret false
    end
  else ret true.

(** Lines 110-121. *)
Definition injectCompatibilityMatrix (matrix : CompatibilityMatrix)
  : M (option CompatibilityMatrix) :=
  match CompatibilityMatrix.mType matrix with
  | FRAMEWORK =>
      sepolicyVers <- getFlag host parse_Version "BOARD_SEPOLICY_VERS" ;;
      match sepolicyVers with
      | None => ret None
      | Some sepolicyVers =>
          kernelSepolicyVers <-
            getFlag host parse_KernelSepolicyVersion "POLICYVERS" ;;
          match kernelSepolicyVers with
          | None => ret None
          | Some kernelSepolicyVers =>
              ret (Some (CompatibilityMatrix.set_mSepolicy matrix
                           (new_Sepolicy kernelSepolicyVers sepolicyVers)))
          end
      end
  | DEVICE => ret (Some matrix)
  end.

(** Lines 122-123. *)
Definition emitCompatibilityMatrix (matrix : CompatibilityMatrix) : M unit :=
  a <- get_this ;;
  emit (EvOut (out a)
          (serialize (XmlConverter := gCompatibilityMatrixConverter) matrix)) ;;
  emit (EvFlush (out a)).

(** Lines 125-138; the local [error] is still empty here. *)
Definition checkCompatibilityMatrix (matrix : CompatibilityMatrix) : M bool :=
  a <- get_this ;;
  if is_open (mCheckFile a) then
    xml <- read CheckFile ;;
    checkManifest <- convertHalManifest xml ;;
    match checkManifest with
    | None =>
        e <- lastError_manifest ;;
        cerr (msg_check_manifest e) ;; ret false
    | Some checkManifest =>
        let (ok, error) := checkCompatibility checkManifest matrix "" in
        if ok then ret true
        else cerr (msg_not_compatible error) ;; ret false
    end
  else ret true.

(** The manifest attempt of [assemble] (lines 149-154). *)
Definition tryHalManifest (fileContent : string) : M bool :=
  halManifest <- convertHalManifest fileContent ;;
  match halManifest with
  | Some halManifest =>
      r <- assembleHalManifest host halManifest ;; ret (fst r)
  | None => ret false
  end.

(** The matrix attempt of [assemble] (lines 156-161). *)
Definition tryCompatibilityMatrix (fileContent : string) : M bool :=
  matrix <- convertCompatibilityMatrix fileContent ;;
  match matrix with
  | Some matrix =>
      r <- assembleCompatibilityMatrix host matrix ;; ret (fst r)
  | None => ret false
  end.

(** A required flag that cannot be obtained, with the diagnostic it
  produces (lines 41-49). *)
Inductive flag_fails {T} (parse : string -> option T) (key : string)
  : string -> Prop :=
| flag_absent :
  getenv host key = None -> flag_fails parse key (msg_required key)
| flag_unparseable raw :
  getenv host key = Some raw -> parse raw = None ->
  flag_fails parse key (msg_cannot_parse raw).

(** Successful injection into a manifest, as lines 66-70 perform it. *)
Inductive manifest_injection (hm : HalManifest) : HalManifest -> Prop :=
| inject_framework_manifest :
  HalManifest.mType hm = FRAMEWORK -> manifest_injection hm hm
| inject_device_manifest raw v :
  HalManifest.mType hm = DEVICE ->
  getenv host "BOARD_SEPOLICY_VERS" = Some raw ->
  parse_Version raw = Some v ->
  manifest_injection hm (HalManifest.set_mSepolicyVersion hm v).

(** Successful injection into a matrix, as lines 112-121 perform it. *)
Inductive matrix_injection (cm : CompatibilityMatrix)
  : CompatibilityMatrix -> Prop :=
| inject_device_matrix :
  CompatibilityMatrix.mType cm = DEVICE -> matrix_injection cm cm
| inject_framework_matrix rawS v rawK k :
  CompatibilityMatrix.mType cm = FRAMEWORK ->
  getenv host "BOARD_SEPOLICY_VERS" = Some rawS ->
  parse_Version rawS = Some v ->
  getenv host "POLICYVERS" = Some rawK ->
  parse_KernelSepolicyVersion rawK = Some k ->
  matrix_injection cm
    (CompatibilityMatrix.set_mSepolicy cm (new_Sepolicy k v)).

(** The text that lines 72-88 send to the output stream for a manifest,
  with and without [-m]. *)
Definition manifest_output (skeleton : bool) (hm : HalManifest) : string :=
  if skeleton then
  skeleton_header ++
  serialize (XmlConverter := gCompatibilityMatrixConverter)
    (generateCompatibleMatrix hm)
  else serialize (XmlConverter := gHalManifestConverter) hm.

(** The content of the local [error] when the reference check starts. *)
Definition error_before_check (skeleton : bool) (hm : HalManifest) : string :=
  if skeleton then
  snd (checkCompatibility hm (generateCompatibleMatrix hm) "")
  else "".

(** The object on which [main] calls [assemble]. *)
Definition configured (opts : list cli_option) : State :=
  final (configure host opts).

(** The option loop completes and leaves the input stream open on
  [text]: the run gets to read [text] as its input. *)
Definition run_reads (opts : list cli_option) (text : string) : Prop :=
  value (configure host opts) = None /\
  mInFile (this (configured opts)) = Some text.

(** The check file of the run: [Some ref] when one was supplied and
  opened, with content [ref]. *)
Definition check_file (opts : list cli_option) : ifstream :=
  mCheckFile (this (configured opts)).

(** The output stream of the run. *)
Definition out_stream (opts : list cli_option) : ostream :=
  out (this (configured opts)).

(** The reference check of a manifest does not fail: no check file was
  opened, or it parses as a matrix the manifest is compatible with. *)
Definition reference_accepts_manifest (opts : list cli_option)
  (hm : HalManifest) (error : string) : Prop :=
  match check_file opts with
| None => True
| Some ref =>
    exists cm,
      deserialize (XmlConverter := gCompatibilityMatrixConverter) ref =
        inr cm /\
      fst (checkCompatibility hm cm error) = true
  end.

(** One of the two flags of a framework matrix cannot be obtained
  (lines 113-118); [d] is the diagnostic of the lookup that fails. *)
Inductive matrix_flag_fails (d : string) : Prop :=
| first_flag_fails :
  flag_fails parse_Version "BOARD_SEPOLICY_VERS" d -> matrix_flag_fails d
| second_flag_fails raw v :
  getenv host "BOARD_SEPOLICY_VERS" = Some raw ->
  parse_Version raw = Some v ->
  flag_fails parse_KernelSepolicyVersion "POLICYVERS" d ->
  matrix_flag_fails d.

End Vocabulary.

(** *** The command line *)

(** The argument of the first [-i]. *)
Fixpoint first_input (opts : list cli_option) : option string :=
  match opts with
  | [] => None
  | Opt_i optarg :: _ => Some optarg
  | _ :: rest => first_input rest
  end.

(** [inFilePath] once the loop has gone through [opts], starting from
    [path]: the argument of the last [-i]. *)
Fixpoint last_input (opts : list cli_option) (path : string) : string :=
  match opts with
  | [] => path
  | Opt_i optarg :: rest => last_input rest optarg
  | _ :: rest => last_input rest path
  end.

(** The argument of the last [-o]. *)
Fixpoint last_output (opts : list cli_option) : option string :=
  match opts with
  | [] => None
  | Opt_o optarg :: rest =>
      match last_output rest with
      | Some later => Some later
      | None => Some optarg
      end
  | _ :: rest => last_output rest
  end.

(** The argument of the first [-c] whose argument is not empty. *)
Fixpoint first_check (opts : list cli_option) : option string :=
  match opts with
  | [] => None
  | Opt_c optarg :: rest =>
      if (String.length optarg =? 0)%nat then first_check rest
      else Some optarg
  | _ :: rest => first_check rest
  end.

(** [-h], or an option [getopt_long] does not know. *)
Definition asks_help (o : cli_option) : bool :=
  match o with Opt_h | Opt_unrecognized _ => true | _ => false end.


(** What [getopt_long] itself has written to the error stream when it
    returns [o]. *)
Definition getopt_events (o : cli_option) : list event :=
  match o with Opt_unrecognized message => [EvCerr message] | _ => [] end.


(** An event that writes to or flushes a stream does so on [o]. *)
Definition on_stream (o : ostream) (e : event) : Prop :=
  match e with
  | EvOut o' _ | EvFlush o' => o' = o
  | _ => True
  end.

(** The state [s] with [mOutputMatrix] set to [b]. *)
Definition with_mOutputMatrix (b : bool) (s : State) : State :=
  mkState
    (mkAssembleVintf (mInFile (this s)) (mOutFileRef (this s))
       (mCheckFile (this s)) b)
    (manifestLastError s) (matrixLastError s).

(** The host [h] with another environment. *)
Definition with_getenv (env : string -> option string) (h : Host) : Host :=
  mkHost env (readable h) (writable h).


(** The events a run can log, for the output stream [o]: diagnostics,
    reads, entry marks, lookups of the two build flags, and writes and
    flushes on [o]. *)
Inductive permitted (o : ostream) : event -> Prop :=
| permitted_cerr d : permitted o (EvCerr d)
| permitted_read f : permitted o (EvRead f)
| permitted_enter p : permitted o (EvEnter p)
| permitted_BOARD_SEPOLICY_VERS : permitted o (EvGetenv "BOARD_SEPOLICY_VERS")
| permitted_POLICYVERS : permitted o (EvGetenv "POLICYVERS")
| permitted_out text : permitted o (EvOut o text)
| permitted_flush : permitted o (EvFlush o).

(** The events of a procedure that succeeds end with a write and a
    flush on [o], followed by at most the read of the check file. *)
Definition ends_flushed (o : ostream) (evs : list event) : Prop :=
  exists before text after,
    evs = (before ++ [EvOut o text; EvFlush o] ++ after)%list /\
    (after = [] \/ after = [EvRead CheckFile]).

(** ** Proof automation *)

Arguments msg_required : simpl never.
Arguments msg_cannot_parse : simpl never.
Arguments msg_fatal : simpl never.
Arguments msg_check_matrix : simpl never.
Arguments msg_check_manifest : simpl never.
Arguments msg_not_compatible : simpl never.
Arguments msg_unknown_format : simpl never.
Arguments msg_failed_to_open : simpl never.
Arguments msg_no_check : simpl never.
Arguments skeleton_header : simpl never.
Arguments help_text : simpl never.
Arguments getFlag : simpl never.
Arguments read : simpl never.
Arguments tryHalManifest : simpl never.
Arguments tryCompatibilityMatrix : simpl never.
Arguments assembleHalManifest : simpl never.
Arguments assembleCompatibilityMatrix : simpl never.
Arguments injectHalManifest : simpl never.
Arguments injectCompatibilityMatrix : simpl never.
Arguments emitHalManifest : simpl never.
Arguments emitCompatibilityMatrix : simpl never.
Arguments checkHalManifest : simpl never.
Arguments checkCompatibilityMatrix : simpl never.
Arguments assemble : simpl never.

(** Membership in a list built from [::] and [++]. *)
Ltac find_in :=
  first [ apply in_eq
      | apply in_cons; find_in
      | apply in_or_app; left; find_in
      | apply in_or_app; right; find_in ].

(** Case analysis on every [match] of the goal, closing each case by
    computation. *)
Ltac split_cases :=
  repeat (cbn;
          match goal with
          | |- context [match ?x with _ => _ end] =>
              lazymatch x with
              | context [match _ with _ => _ end] => fail
              | _ => destruct x eqn:?
              end
          end);
  cbn; try reflexivity;
  try (repeat match goal with
              | H : ?a = _ |- context [?a] => rewrite H
              end; reflexivity).

Ltac run_unfold :=
  unfold bind, ret, cerr, emit, get_this, set_this, call_getenv,
  lastError_manifest, lastError_matrix.

Ltac in_concrete :=
  vm_compute; repeat first [left; reflexivity | right].

Lemma append_nil_r (s : string) : s ++ "" = s.
Proof. induction s as [|c s IH]; simpl; [|rewrite IH]; reflexivity. Qed.

Lemma append_assoc (s1 s2 s3 : string) : (s1 ++ s2) ++ s3 = s1 ++ s2 ++ s3.
Proof. induction s1 as [|c s1 IH]; simpl; [|rewrite IH]; reflexivity. Qed.

Lemma written_app (l1 l2 : list event) :
  written (l1 ++ l2) = written l1 ++ written l2.
Proof.
  induction l1 as [|e l1 IH]; simpl; [reflexivity|].
  destruct e; simpl; rewrite ?IH; try reflexivity.
  now rewrite append_assoc.
Qed.

Lemma cerr_only_written (evs : list event) :
  forallb is_cerr evs = true -> written evs = "".
Proof.
  induction evs as [|e evs IH]; simpl; [reflexivity|].
  destruct e; simpl; try discriminate; exact IH.
Qed.

Lemma cerr_only_In (evs : list event) (e : event) :
  forallb is_cerr evs = true -> In e evs -> is_cerr e = true.
Proof.
  intros H Hin. rewrite forallb_forall in H. now apply H.
Qed.

Lemma silent_app (l1 l2 : list event) :
  silent l1 -> silent l2 -> silent (l1 ++ l2).
Proof.
  intros H1 H2 o text Hin. apply in_app_or in Hin.
  destruct Hin as [Hin|Hin]; [eapply H1|eapply H2]; eassumption.
Qed.

Lemma cerr_only_silent (evs : list event) :
  forallb is_cerr evs = true -> silent evs.
Proof.
  intros H o text Hin. apply (cerr_only_In _ _ H) in Hin. discriminate.
Qed.




(** ** Equations of the procedures *)

Section Equations.
Context {L : VintfLib}.
Variable host : Host.

Lemma getFlag_absent {T} (parse : string -> option T) key s :
  getenv host key = None ->
  getFlag host parse key s =
    mkResult None s [EvGetenv key; EvCerr (msg_required key)].
Proof. intros H. unfold getFlag. run_unfold. cbn. now rewrite H. Qed.

Lemma getFlag_unparseable {T} (parse : string -> option T) key raw s :
  getenv host key = Some raw -> parse raw = None ->
  getFlag host parse key s =
    mkResult None s [EvGetenv key; EvCerr (msg_cannot_parse raw)].
Proof.
  intros H1 H2. unfold getFlag. run_unfold. cbn. now rewrite H1, H2.
Qed.

Lemma getFlag_parsed {T} (parse : string -> option T) key raw v s :
  getenv host key = Some raw -> parse raw = Some v ->
  getFlag host parse key s = mkResult (Some v) s [EvGetenv key].
Proof.
  intros H1 H2. unfold getFlag. run_unfold. cbn. now rewrite H1, H2.
Qed.

(** [getFlag] never touches the state and always logs the lookup first. *)
Lemma getFlag_shape {T} (parse : string -> option T) key s :
  final (getFlag host parse key s) = s /\
  exists tail, events (getFlag host parse key s) = EvGetenv key :: tail /\
               forallb is_cerr tail = true.
Proof.
  unfold getFlag. run_unfold. cbn.
  destruct (getenv host key) as [raw|]; [destruct (parse raw)|]; cbn;
    (split; [reflexivity|eexists; split; reflexivity]).
Qed.

Lemma tryHalManifest_inr xml hm s :
  deserialize (XmlConverter := gHalManifestConverter) xml = inr hm ->
  tryHalManifest host xml s =
    let r := assembleHalManifest host hm s in
    mkResult (fst (value r)) (final r) (events r).
Proof.
  intros H. unfold tryHalManifest, convertHalManifest. run_unfold.
  rewrite H. cbn. now rewrite app_nil_r.
Qed.

Lemma tryHalManifest_inl xml e s :
  deserialize (XmlConverter := gHalManifestConverter) xml = inl e ->
  tryHalManifest host xml s =
    mkResult false (mkState (this s) e (matrixLastError s)) [].
Proof.
  intros H. unfold tryHalManifest, convertHalManifest. run_unfold.
  now rewrite H.
Qed.

Lemma tryCompatibilityMatrix_inr xml cm s :
  deserialize (XmlConverter := gCompatibilityMatrixConverter) xml = inr cm ->
  tryCompatibilityMatrix host xml s =
    let r := assembleCompatibilityMatrix host cm s in
    mkResult (fst (value r)) (final r) (events r).
Proof.
  intros H. unfold tryCompatibilityMatrix, convertCompatibilityMatrix.
  run_unfold. rewrite H. cbn. now rewrite app_nil_r.
Qed.

Lemma tryCompatibilityMatrix_inl xml e s :
  deserialize (XmlConverter := gCompatibilityMatrixConverter) xml = inl e ->
  tryCompatibilityMatrix host xml s =
    mkResult false (mkState (this s) (manifestLastError s) e) [].
Proof.
  intros H. unfold tryCompatibilityMatrix, convertCompatibilityMatrix.
  run_unfold. now rewrite H.
Qed.

(** [assemble] on an open input: the manifest attempt, then on failure
    the matrix attempt, then on failure the diagnostic. *)
Lemma assemble_eq s text :
  mInFile (this s) = Some text ->
  let r1 := tryHalManifest host text (after_read s) in
  let r2 := tryCompatibilityMatrix host text (final r1) in
  assemble host s =
    if value r1 then mkResult true (final r1) (EvRead InFile :: events r1)
    else if value r2 then
      mkResult true (final r2) (EvRead InFile :: events r1 ++ events r2)
    else
      mkResult false (final r2)
        (EvRead InFile :: events r1 ++ events r2 ++
           [EvCerr (msg_unknown_format (manifestLastError (final r2))
                      (matrixLastError (final r2)))]).
Proof.
  intros H r1 r2. unfold assemble. run_unfold. cbn.
  rewrite H. cbn.
  assert (Hread : read InFile s = mkResult text (after_read s) [EvRead InFile]).
  { unfold after_read, read. now rewrite H. }
  rewrite Hread. cbn. subst r1 r2.
  unfold tryHalManifest, tryCompatibilityMatrix,
    convertHalManifest, convertCompatibilityMatrix. run_unfold.
  destruct (deserialize (XmlConverter := gHalManifestConverter) text)
    as [e1|hm]; cbn.
  - destruct (deserialize (XmlConverter := gCompatibilityMatrixConverter) text)
      as [e2|cm]; cbn; [reflexivity|].
    destruct (assembleCompatibilityMatrix host cm _) as [[[] cm'] s2 evs2];
      cbn; now rewrite ?app_nil_r.
  - destruct (assembleHalManifest host hm _) as [[[] hm'] s1 evs1]; cbn;
      [now rewrite ?app_nil_r|].
    destruct (deserialize (XmlConverter := gCompatibilityMatrixConverter) text)
      as [e2|cm]; cbn; [now rewrite ?app_nil_r|].
    destruct (assembleCompatibilityMatrix host cm _) as [[[] cm'] s2 evs2];
      cbn; now rewrite ?app_nil_r.
Qed.

(** *** Injection *)

Lemma env_or_cerr_silent evs : forallb env_or_cerr evs = true -> silent evs.
Proof.
  intros H o text Hin. rewrite forallb_forall in H.
  apply H in Hin. discriminate.
Qed.


Lemma env_or_cerr_no_enter evs p :
  forallb env_or_cerr evs = true -> ~ In (EvEnter p) evs.
Proof.
  intros H Hin. rewrite forallb_forall in H. apply H in Hin. discriminate.
Qed.

Lemma env_or_cerr_written evs :
  forallb env_or_cerr evs = true -> written evs = "".
Proof.
  induction evs as [|e evs IH]; simpl; [reflexivity|].
  destruct e; simpl; try discriminate; exact IH.
Qed.

Lemma injectHalManifest_shape hm s :
  final (injectHalManifest host hm s) = s /\
  forallb env_or_cerr (events (injectHalManifest host hm s)) = true.
Proof.
  unfold injectHalManifest.
  destruct (HalManifest.mType hm); [|split; reflexivity].
  run_unfold. cbn.
  destruct (getFlag_shape parse_Version "BOARD_SEPOLICY_VERS" s)
    as (-> & tail & -> & Ht).
  split; [reflexivity|]. cbn. rewrite forallb_app, andb_true_r.
  clear -Ht. induction tail as [|e tail IH]; [reflexivity|].
  cbn in *. apply andb_true_iff in Ht as [He Ht].
  destruct e; try discriminate. now apply IH.
Qed.

Lemma injectHalManifest_ok hm hm' s :
  manifest_injection host hm hm' ->
  value (injectHalManifest host hm s) = Some hm' /\
  forall e, In e (events (injectHalManifest host hm s)) ->
            e = EvGetenv "BOARD_SEPOLICY_VERS".
Proof.
  intros [Ht|raw v Ht Hraw Hv]; unfold injectHalManifest; rewrite Ht.
  - split; [reflexivity|intros e []].
  - run_unfold. cbn. rewrite (getFlag_parsed _ _ _ _ _ Hraw Hv). cbn.
    split; [reflexivity|]. intros e [<-|[]]. reflexivity.
Qed.

Lemma injectHalManifest_inv hm hm' s :
  value (injectHalManifest host hm s) = Some hm' -> manifest_injection host hm hm'.
Proof.
  unfold injectHalManifest.
  destruct (HalManifest.mType hm) eqn:Ht.
  - run_unfold. cbn. unfold getFlag. run_unfold. cbn.
    destruct (getenv host "BOARD_SEPOLICY_VERS") as [raw|] eqn:Hraw;
      [|discriminate].
    destruct (parse_Version raw) as [v|] eqn:Hv; [|discriminate].
    cbn. intros [= <-]. eapply inject_device_manifest; eassumption.
  - cbn. intros [= <-]. now apply inject_framework_manifest.
Qed.

Lemma getFlag_fails {T} (parse : string -> option T) key d s :
  flag_fails host parse key d ->
  getFlag host parse key s = mkResult None s [EvGetenv key; EvCerr d].
Proof.
  intros [H|raw H1 H2];
    [now apply getFlag_absent|now apply getFlag_unparseable].
Qed.

Lemma getFlag_value_None {T} (parse : string -> option T) key s :
  value (getFlag host parse key s) = None ->
  exists d, flag_fails host parse key d.
Proof.
  unfold getFlag. run_unfold. cbn.
  destruct (getenv host key) as [raw|] eqn:Hraw.
  - destruct (parse raw) eqn:Hv; [discriminate|].
    intros _. eexists. eapply flag_unparseable; eassumption.
  - intros _. eexists. now apply flag_absent.
Qed.

Lemma injectCompatibilityMatrix_shape cm s :
  final (injectCompatibilityMatrix host cm s) = s /\
  forallb env_or_cerr (events (injectCompatibilityMatrix host cm s)) = true.
Proof.
  unfold injectCompatibilityMatrix.
  destruct (CompatibilityMatrix.mType cm); [split; reflexivity|].
  run_unfold. cbn.
  unfold getFlag. run_unfold. cbn.
  destruct (getenv host "BOARD_SEPOLICY_VERS") as [rawS|];
    [destruct (parse_Version rawS)|]; cbn; try (split; reflexivity).
  destruct (getenv host "POLICYVERS") as [rawK|];
    [destruct (parse_KernelSepolicyVersion rawK)|]; cbn; split; reflexivity.
Qed.

Lemma injectCompatibilityMatrix_ok cm cm' s :
  matrix_injection host cm cm' ->
  value (injectCompatibilityMatrix host cm s) = Some cm' /\
  forall e, In e (events (injectCompatibilityMatrix host cm s)) ->
            e = EvGetenv "BOARD_SEPOLICY_VERS" \/ e = EvGetenv "POLICYVERS".
Proof.
  intros [Ht|rawS v rawK k Ht HrawS Hv HrawK Hk];
    unfold injectCompatibilityMatrix; rewrite Ht.
  - split; [reflexivity|intros e []].
  - run_unfold. cbn. rewrite (getFlag_parsed _ _ _ _ _ HrawS Hv). cbn.
    rewrite (getFlag_parsed _ _ _ _ _ HrawK Hk). cbn.
    split; [reflexivity|]. intros e [<-|[<-|[]]]; auto.
Qed.

Lemma injectCompatibilityMatrix_inv cm cm' s :
  value (injectCompatibilityMatrix host cm s) = Some cm' ->
  matrix_injection host cm cm'.
Proof.
  unfold injectCompatibilityMatrix.
  destruct (CompatibilityMatrix.mType cm) eqn:Ht.
  - cbn. intros [= <-]. now apply inject_device_matrix.
  - run_unfold. cbn. unfold getFlag. run_unfold. cbn.
    destruct (getenv host "BOARD_SEPOLICY_VERS") as [rawS|] eqn:HrawS;
      [|discriminate].
    destruct (parse_Version rawS) as [v|] eqn:Hv; [|discriminate]. cbn.
    destruct (getenv host "POLICYVERS") as [rawK|] eqn:HrawK;
      [|discriminate].
    destruct (parse_KernelSepolicyVersion rawK) as [k|] eqn:Hk;
      [|discriminate].
    cbn. intros [= <-]. eapply inject_framework_matrix; eassumption.
Qed.

(** *** Emission and the reference check *)

Lemma emitHalManifest_plain hm s :
  mOutputMatrix (this s) = false ->
  emitHalManifest hm s =
    mkResult "" s
      [EvOut (out (this s))
         (serialize (XmlConverter := gHalManifestConverter) hm);
       EvFlush (out (this s))].
Proof. intros H. unfold emitHalManifest. run_unfold. cbn. now rewrite H. Qed.

Lemma emitHalManifest_skeleton hm s :
  mOutputMatrix (this s) = true ->
  let gm := generateCompatibleMatrix hm in
  let c := checkCompatibility hm gm "" in
  emitHalManifest hm s =
    mkResult (snd c) s
      ((if fst c then [] else [EvCerr (msg_fatal (snd c))]) ++
       [EvOut (out (this s)) skeleton_header;
        EvOut (out (this s))
          (serialize (XmlConverter := gCompatibilityMatrixConverter) gm);
        EvFlush (out (this s))]).
Proof.
  intros H gm c. unfold emitHalManifest. run_unfold. cbn. rewrite H.
  fold gm. fold c. destruct c as [[] error]; reflexivity.
Qed.

Lemma emitCompatibilityMatrix_eq cm s :
  emitCompatibilityMatrix cm s =
    mkResult tt s
      [EvOut (out (this s))
         (serialize (XmlConverter := gCompatibilityMatrixConverter) cm);
       EvFlush (out (this s))].
Proof. reflexivity. Qed.

Lemma checkHalManifest_closed hm error s :
  mCheckFile (this s) = None ->
  checkHalManifest hm error s = mkResult true s [].
Proof. intros H. unfold checkHalManifest. run_unfold. cbn. now rewrite H. Qed.

Lemma checkHalManifest_open hm error s ref :
  mCheckFile (this s) = Some ref ->
  checkHalManifest hm error s =
    match deserialize (XmlConverter := gCompatibilityMatrixConverter) ref with
    | inl e =>
        mkResult false
          (mkState (this (after_check_read s)) (manifestLastError s) e)
          [EvRead CheckFile; EvCerr (msg_check_matrix e)]
    | inr cm =>
        let c := checkCompatibility hm cm error in
        if fst c then mkResult true (after_check_read s) [EvRead CheckFile]
        else mkResult false (after_check_read s)
               [EvRead CheckFile; EvCerr (msg_not_compatible (snd c))]
    end.
Proof.
  intros H. unfold checkHalManifest. run_unfold. cbn. rewrite H. cbn.
  assert (Hread : read CheckFile s =
                  mkResult ref (after_check_read s) [EvRead CheckFile]).
  { unfold after_check_read, read. now rewrite H. }
  rewrite Hread. cbn. unfold convertCompatibilityMatrix.
  destruct (deserialize ref) as [e|cm]; cbn; [reflexivity|].
  destruct (checkCompatibility hm cm error) as [[] error']; reflexivity.
Qed.

Lemma checkCompatibilityMatrix_closed cm s :
  mCheckFile (this s) = None ->
  checkCompatibilityMatrix cm s = mkResult true s [].
Proof.
  intros H. unfold checkCompatibilityMatrix. run_unfold. cbn. now rewrite H.
Qed.

Lemma checkCompatibilityMatrix_open cm s ref :
  mCheckFile (this s) = Some ref ->
  checkCompatibilityMatrix cm s =
    match deserialize (XmlConverter := gHalManifestConverter) ref with
    | inl e =>
        mkResult false
          (mkState (this (after_check_read s)) e (matrixLastError s))
          [EvRead CheckFile; EvCerr (msg_check_manifest e)]
    | inr hm =>
        let c := checkCompatibility hm cm "" in
        if fst c then mkResult true (after_check_read s) [EvRead CheckFile]
        else mkResult false (after_check_read s)
               [EvRead CheckFile; EvCerr (msg_not_compatible (snd c))]
    end.
Proof.
  intros H. unfold checkCompatibilityMatrix. run_unfold. cbn. rewrite H. cbn.
  assert (Hread : read CheckFile s =
                  mkResult ref (after_check_read s) [EvRead CheckFile]).
  { unfold after_check_read, read. now rewrite H. }
  rewrite Hread. cbn. unfold convertHalManifest.
  destruct (deserialize ref) as [e|hm]; cbn; [reflexivity|].
  destruct (checkCompatibility hm cm "") as [[] error']; reflexivity.
Qed.

(** *** The two assembly procedures *)

Lemma assembleHalManifest_eq hm s :
  assembleHalManifest host hm s =
    let ri := injectHalManifest host hm s in
    match value ri with
    | None =>
        mkResult (false, hm) s (EvEnter AssembleHalManifest :: events ri)
    | Some hm' =>
        let re := emitHalManifest hm' s in
        let rc := checkHalManifest hm' (value re) s in
        mkResult (value rc, hm') (final rc)
          (EvEnter AssembleHalManifest ::
             events ri ++ events re ++ events rc)
    end.
Proof.
  unfold assembleHalManifest, injectHalManifest, emitHalManifest,
    checkHalManifest, getFlag, convertCompatibilityMatrix, read.
  run_unfold. split_cases.
Qed.

Lemma assembleCompatibilityMatrix_eq cm s :
  assembleCompatibilityMatrix host cm s =
    let ri := injectCompatibilityMatrix host cm s in
    match value ri with
    | None =>
        mkResult (false, cm) s
          (EvEnter AssembleCompatibilityMatrix :: events ri)
    | Some cm' =>
        let rc := checkCompatibilityMatrix cm' s in
        mkResult (value rc, cm') (final rc)
          (EvEnter AssembleCompatibilityMatrix ::
             events ri ++
             [EvOut (out (this s))
                (serialize (XmlConverter := gCompatibilityMatrixConverter)
                   cm');
              EvFlush (out (this s))] ++ events rc)
    end.
Proof.
  unfold assembleCompatibilityMatrix, injectCompatibilityMatrix,
    checkCompatibilityMatrix, getFlag, convertHalManifest, read.
  run_unfold. split_cases.
Qed.

Lemma checkHalManifest_events hm error s :
  check_events (events (checkHalManifest hm error s)).
Proof.
  destruct (mCheckFile (this s)) as [ref|] eqn:Hc.
  - rewrite (checkHalManifest_open hm error s ref Hc). right.
    destruct (deserialize ref) as [e|cm]; cbn.
    + eexists; split; reflexivity.
    + destruct (fst (checkCompatibility hm cm error)); cbn;
        eexists; split; reflexivity.
  - rewrite (checkHalManifest_closed hm error s Hc). now left.
Qed.

Lemma checkCompatibilityMatrix_events cm s :
  check_events (events (checkCompatibilityMatrix cm s)).
Proof.
  destruct (mCheckFile (this s)) as [ref|] eqn:Hc.
  - rewrite (checkCompatibilityMatrix_open cm s ref Hc). right.
    destruct (deserialize ref) as [e|hm]; cbn.
    + eexists; split; reflexivity.
    + destruct (fst (checkCompatibility hm cm "")); cbn;
        eexists; split; reflexivity.
  - rewrite (checkCompatibilityMatrix_closed cm s Hc). now left.
Qed.

Lemma cerr_only_no_check_read evs :
  forallb is_cerr evs = true -> no_check_read evs.
Proof.
  intros H Hin. apply (cerr_only_In _ _ H) in Hin. discriminate.
Qed.


Lemma check_events_silent evs : check_events evs -> silent evs.
Proof.
  intros [->|(tail & -> & Ht)] o text Hin; [destruct Hin|].
  destruct Hin as [Hin|Hin]; [discriminate|].
  apply (cerr_only_In _ _ Ht) in Hin. discriminate.
Qed.

Lemma check_events_written evs : check_events evs -> written evs = "".
Proof.
  intros [->|(tail & -> & Ht)]; [reflexivity|].
  cbn. now apply cerr_only_written.
Qed.

Lemma check_events_no_enter evs p : check_events evs -> ~ In (EvEnter p) evs.
Proof.
  intros [->|(tail & -> & Ht)] Hin; [destruct Hin|].
  destruct Hin as [Hin|Hin]; [discriminate|].
  apply (cerr_only_In _ _ Ht) in Hin. discriminate.
Qed.

Lemma check_events_no_getenv evs : check_events evs -> reads_no_env evs.
Proof.
  intros [->|(tail & -> & Ht)] key Hin; [destruct Hin|].
  destruct Hin as [Hin|Hin]; [discriminate|].
  apply (cerr_only_In _ _ Ht) in Hin. discriminate.
Qed.

(** Emission for a manifest ends with a write and a flush. *)
Lemma emitHalManifest_events hm s :
  exists pre text,
    events (emitHalManifest hm s) =
      (pre ++ [EvOut (out (this s)) text; EvFlush (out (this s))])%list /\
    no_check_read pre /\ reads_no_env pre /\
    (forall p, ~ In (EvEnter p) pre).
Proof.
  destruct (mOutputMatrix (this s)) eqn:Hm.
  - rewrite (emitHalManifest_skeleton hm s Hm). cbn.
    destruct (fst (checkCompatibility hm (generateCompatibleMatrix hm) "")).
    + exists [EvOut (out (this s)) skeleton_header]. eexists.
      split; [reflexivity|].
      repeat split; intro; intros; cbn in *; intuition discriminate.
    + eexists [EvCerr _; EvOut (out (this s)) skeleton_header]. eexists.
      split; [reflexivity|].
      repeat split; intro; intros; cbn in *; intuition discriminate.
  - rewrite (emitHalManifest_plain hm s Hm). exists []. eexists.
    split; [reflexivity|].
    repeat split; intro; intros; cbn in *; intuition discriminate.
Qed.


End Equations.

(** ** Runs of [main] *)

Section Run.
Context {L : VintfLib}.
Variable host : Host.

Lemma existsb_is_Opt_m opts : existsb is_Opt_m opts = true <-> In Opt_m opts.
Proof.
  rewrite existsb_exists. split.
  - intros (o & Hin & Ho). destruct o; try discriminate. exact Hin.
  - intros Hin. now exists Opt_m.
Qed.

Lemma option_loop_cerr opts path s :
  forallb is_cerr (events (option_loop host opts path s)) = true.
Proof.
  revert path s. induction opts as [|o opts IH]; intros path s;
    [reflexivity|].
  destruct o; cbn [option_loop]; run_unfold; cbn.
  - unfold openInFile. run_unfold. cbn.
    destruct (mInFile (this s)); cbn; [apply IH|].
    destruct (readable host optarg); cbn; [apply IH|reflexivity].
  - unfold openOutFile. run_unfold. cbn.
    destruct (writable host optarg); cbn; [apply IH|reflexivity].
  - apply IH.
  - destruct (String.length optarg =? 0)%nat; cbn; [apply IH|].
    unfold openCheckFile. run_unfold. cbn.
    destruct (mCheckFile (this s)); cbn; [apply IH|].
    destruct (readable host optarg); cbn; [apply IH|reflexivity].
  - reflexivity.
  - reflexivity.
Qed.

Lemma option_loop_mOutputMatrix opts path s :
  value (option_loop host opts path s) = None ->
  mOutputMatrix (this (final (option_loop host opts path s))) =
    mOutputMatrix (this s) || existsb is_Opt_m opts.
Proof.
  revert path s. induction opts as [|o opts IH]; intros path s;
    [cbn; now rewrite orb_false_r|].
  destruct o; cbn [option_loop existsb is_Opt_m]; run_unfold; cbn.
  - unfold openInFile. run_unfold. cbn.
    destruct (mInFile (this s)); cbn; [apply IH|].
    destruct (readable host optarg); cbn;
      [intros H; now rewrite (IH _ _ H)|discriminate].
  - unfold openOutFile. run_unfold. cbn.
    destruct (writable host optarg); cbn;
      [intros H; now rewrite (IH _ _ H)|discriminate].
  - intros H. rewrite (IH _ _ H). cbn. now rewrite orb_true_r.
  - destruct (String.length optarg =? 0)%nat; cbn; [apply IH|].
    unfold openCheckFile. run_unfold. cbn.
    destruct (mCheckFile (this s)); cbn; [apply IH|].
    destruct (readable host optarg); cbn;
      [intros H; now rewrite (IH _ _ H)|discriminate].
  - discriminate.
  - discriminate.
Qed.

Lemma configured_mOutputMatrix opts :
  value (configure host opts) = None ->
  mOutputMatrix (this (configured host opts)) = existsb is_Opt_m opts.
Proof. intros H. apply (option_loop_mOutputMatrix _ _ _ H). Qed.

(** [main] once the option loop has completed. *)
Lemma main_eq opts :
  value (configure host opts) = None ->
  main host opts =
    let r := assemble host (configured host opts) in
    mkResult (exit_code (value r)) (final r)
      (events (configure host opts) ++ events r).
Proof.
  intros H. unfold main, main_body, configured, configure in *.
  run_unfold. rewrite H. cbn. now rewrite app_nil_r.
Qed.

Lemma configure_silent opts : silent (events (configure host opts)).
Proof. apply cerr_only_silent, option_loop_cerr. Qed.

Lemma configure_written opts : written (events (configure host opts)) = "".
Proof. apply cerr_only_written, option_loop_cerr. Qed.

Lemma after_read_this s :
  mOutputMatrix (this (after_read s)) = mOutputMatrix (this s) /\
  mCheckFile (this (after_read s)) = mCheckFile (this s) /\
  out (this (after_read s)) = out (this s).
Proof. repeat split. Qed.
End Run.

(** ** The claims *)

Section Claims.
Context {L : VintfLib}.
Variable host : Host.

Lemma silent_cons e evs :
  (forall o text, e <> EvOut o text) -> silent evs -> silent (e :: evs).
Proof.
  intros He H o text [Hin|Hin]; [now apply (He o text)|now apply (H o text)].
Qed.

Lemma silent_nil : silent [].
Proof. intros o text []. Qed.

Lemma injectCompatibilityMatrix_POLICYVERS cm d s :
  CompatibilityMatrix.mType cm = FRAMEWORK ->
  flag_fails host parse_KernelSepolicyVersion "POLICYVERS" d ->
  value (injectCompatibilityMatrix host cm s) = None.
Proof.
  intros Ht Hf. unfold injectCompatibilityMatrix. rewrite Ht.
  run_unfold. cbn.
  destruct (getFlag_shape host parse_Version "BOARD_SEPOLICY_VERS" s)
    as [Hs _].
  destruct (getFlag host parse_Version "BOARD_SEPOLICY_VERS" s)
    as [[v|] s' evs]; cbn in *; [subst s'|reflexivity].
  now rewrite (getFlag_fails host _ _ _ s Hf).
Qed.

(** Claim C7.  When the input parses neither as a manifest nor as a
    matrix, the run exits 1, its only diagnostic after reading the input
    carries the manifest converter's error message and the matrix
    converter's error message, and nothing is written to the output
    stream. *)
Theorem unknown_format_reports_both_errors opts text e1 e2 :
  run_reads host opts text ->
  deserialize (XmlConverter := gHalManifestConverter) text = inl e1 ->
  deserialize (XmlConverter := gCompatibilityMatrixConverter) text = inl e2 ->
  let r := main host opts in
  value r = 1%Z /\
  events r =
    (events (configure host opts) ++
     [EvRead InFile; EvCerr (msg_unknown_format e1 e2)])%list /\
  msg_unknown_format e1 e2 =
    "Input file has unknown format." ++ endl ++
    "Error when attempting to convert to manifest: " ++ e1 ++ endl ++
    "Error when attempting to convert to compatibility matrix: " ++
    e2 ++ endl /\
  silent (events r).
Proof.
  intros [Hcfg Hin] H1 H2 r. subst r. rewrite (main_eq host opts Hcfg). cbn.
  rewrite (assemble_eq host _ text Hin). cbn.
  rewrite (tryHalManifest_inl host text e1 _ H1). cbn.
  rewrite (tryCompatibilityMatrix_inl host text e2 _ H2). cbn.
  repeat split.
  apply silent_app; [apply configure_silent|].
  repeat (apply silent_cons; [discriminate|]). apply silent_nil.
Qed.

(** Claim C3.  For an input that parses as a framework matrix and not as
    a manifest, when [POLICYVERS] is absent or does not parse the run
    exits 1 and nothing is written to the output stream. *)
Theorem framework_matrix_needs_POLICYVERS opts text e cm d :
  run_reads host opts text ->
  deserialize (XmlConverter := gHalManifestConverter) text = inl e ->
  deserialize (XmlConverter := gCompatibilityMatrixConverter) text = inr cm ->
  CompatibilityMatrix.mType cm = FRAMEWORK ->
  flag_fails host parse_KernelSepolicyVersion "POLICYVERS" d ->
  let r := main host opts in
  value r = 1%Z /\ silent (events r) /\ written (events r) = "".
Proof.
  intros [Hcfg Hin] H1 H2 Ht Hf r. subst r.
  rewrite (main_eq host opts Hcfg). cbn.
  rewrite (assemble_eq host _ text Hin). cbn.
  rewrite (tryHalManifest_inl host text e _ H1). cbn.
  rewrite (tryCompatibilityMatrix_inr host text cm _ H2). cbn.
  rewrite assembleCompatibilityMatrix_eq. cbn.
  rewrite (injectCompatibilityMatrix_POLICYVERS cm d _ Ht Hf). cbn.
  destruct (injectCompatibilityMatrix_shape host cm
              (mkState (this (after_read (configured host opts))) e
                 (matrixLastError (after_read (configured host opts)))))
    as [_ Hq].
  split; [reflexivity|]. split.
  - apply silent_app; [apply configure_silent|].
    apply silent_cons; [discriminate|].
    apply silent_cons; [discriminate|].
    apply silent_app; [now apply env_or_cerr_silent|].
    apply silent_cons; [discriminate|]. apply silent_nil.
  - rewrite written_app, configure_written. cbn.
    rewrite written_app, (env_or_cerr_written _ Hq). reflexivity.
Qed.

(** Every run that reads its input starts with the manifest attempt, and
    stops there when that attempt succeeds. *)
Lemma main_first_attempt opts text :
  run_reads host opts text ->
  let r1 := tryHalManifest host text (after_read (configured host opts)) in
  exists rest,
    events (main host opts) =
      (events (configure host opts) ++
       EvRead InFile :: events r1 ++ rest)%list /\
    (value r1 = true -> rest = [] /\ value (main host opts) = 0%Z).
Proof.
  intros [Hcfg Hin] r1. rewrite (main_eq host opts Hcfg). cbn.
  rewrite (assemble_eq host _ text Hin). cbn. fold r1.
  destruct (value r1); cbn.
  - exists []. rewrite app_nil_r. repeat split.
  - match goal with
    | |- context [tryCompatibilityMatrix host text ?s] =>
        set (r2 := tryCompatibilityMatrix host text s)
    end.
    destruct (value r2); cbn; eexists; (split; [reflexivity|intros; discriminate]).
Qed.

Lemma injectHalManifest_device hm raw v s :
  HalManifest.mType hm = DEVICE ->
  getenv host "BOARD_SEPOLICY_VERS" = Some raw ->
  parse_Version raw = Some v ->
  injectHalManifest host hm s =
    mkResult (Some (HalManifest.set_mSepolicyVersion hm v)) s
      [EvGetenv "BOARD_SEPOLICY_VERS"].
Proof.
  intros Ht Hraw Hv. unfold injectHalManifest. rewrite Ht. run_unfold. cbn.
  now rewrite (getFlag_parsed host _ _ _ _ s Hraw Hv).
Qed.

Lemma injectHalManifest_framework hm s :
  HalManifest.mType hm = FRAMEWORK ->
  injectHalManifest host hm s = mkResult (Some hm) s [].
Proof. intros Ht. unfold injectHalManifest. now rewrite Ht. Qed.

Lemma checkHalManifest_accepts opts hm error :
  reference_accepts_manifest host opts hm error ->
  let rc := checkHalManifest hm error (after_read (configured host opts)) in
  value rc = true /\ written (events rc) = "".
Proof.
  intros H rc. subst rc. unfold reference_accepts_manifest, check_file in H.
  destruct (mCheckFile (this (configured host opts))) as [ref|] eqn:Hc.
  - destruct H as (cm & Hcm & Hok).
    rewrite (checkHalManifest_open hm error
               (after_read (configured host opts)) ref Hc), Hcm. cbn.
    rewrite Hok. split; reflexivity.
  - rewrite (checkHalManifest_closed hm error
               (after_read (configured host opts)) Hc). split; reflexivity.
Qed.

(** Claim C2.  For an input that parses as a device manifest, with
    [BOARD_SEPOLICY_VERS] set to a value that parses and no [-m], the run
    writes the serialization of the manifest whose security-policy
    version is the parsed value, and exits 0 unless the reference check
    fails. *)
Theorem device_manifest_gets_BOARD_SEPOLICY_VERS opts text hm raw v :
  run_reads host opts text ->
  ~ In Opt_m opts ->
  deserialize (XmlConverter := gHalManifestConverter) text = inr hm ->
  HalManifest.mType hm = DEVICE ->
  getenv host "BOARD_SEPOLICY_VERS" = Some raw ->
  parse_Version raw = Some v ->
  let hm' := HalManifest.set_mSepolicyVersion hm v in
  let r := main host opts in
  HalManifest.mSepolicyVersion (HalManifest.device hm') = v /\
  (exists rest,
     events r =
       (events (configure host opts) ++
        [EvRead InFile; EvEnter AssembleHalManifest;
         EvGetenv "BOARD_SEPOLICY_VERS";
         EvOut (out_stream host opts)
           (serialize (XmlConverter := gHalManifestConverter) hm');
         EvFlush (out_stream host opts)] ++ rest)%list) /\
  (reference_accepts_manifest host opts hm' "" ->
   value r = 0%Z /\
   written (events r) =
     serialize (XmlConverter := gHalManifestConverter) hm').
Proof.
  intros Hrun Hm H1 Ht Hraw Hv hm' r. subst r.
  destruct (main_first_attempt opts text Hrun) as (rest & Hev & Hstop).
  destruct Hrun as [Hcfg Hin].
  assert (Hplain : mOutputMatrix (this (after_read (configured host opts)))
                   = false).
  { change (mOutputMatrix (this (configured host opts)) = false).
    rewrite (configured_mOutputMatrix host opts Hcfg).
    destruct (existsb is_Opt_m opts) eqn:E; [|reflexivity].
    now apply existsb_is_Opt_m in E. }
  rewrite (tryHalManifest_inr host text hm _ H1) in Hev, Hstop.
  rewrite assembleHalManifest_eq in Hev, Hstop.
  rewrite (injectHalManifest_device hm raw v _ Ht Hraw Hv) in Hev, Hstop.
  cbn [value final events] in Hev, Hstop. fold hm' in Hev, Hstop.
  rewrite (emitHalManifest_plain hm' _ Hplain) in Hev, Hstop.
  cbn [value final events fst snd] in Hev, Hstop.
  split; [reflexivity|]. split.
  - eexists. rewrite Hev. cbn. reflexivity.
  - intros Hacc.
    destruct (checkHalManifest_accepts opts hm' "" Hacc) as [Hok Hw].
    destruct (Hstop Hok) as [-> Hexit]. split; [exact Hexit|].
    rewrite Hev, written_app, configure_written. cbn.
    rewrite app_nil_r, Hw. apply append_nil_r.
Qed.

Lemma injectHalManifest_injection hm hm' s :
  manifest_injection host hm hm' ->
  exists evs,
    injectHalManifest host hm s = mkResult (Some hm') s evs /\
    forallb env_or_cerr evs = true.
Proof.
  intros [Ht|raw v Ht Hraw Hv].
  - rewrite (injectHalManifest_framework hm s Ht). now exists [].
  - rewrite (injectHalManifest_device hm raw v s Ht Hraw Hv).
    now eexists.
Qed.

Lemma configured_skeleton opts :
  value (configure host opts) = None -> In Opt_m opts ->
  mOutputMatrix (this (after_read (configured host opts))) = true.
Proof.
  intros Hcfg Hm.
  change (mOutputMatrix (this (configured host opts)) = true).
  rewrite (configured_mOutputMatrix host opts Hcfg).
  now apply existsb_is_Opt_m.
Qed.

(** Claim C4.  With [-m], when the generated matrix fails the check
    against its own manifest, the run logs the diagnostic and still
    writes the advisory comment followed by the generated matrix; it
    exits 0 unless the reference check fails. *)
Theorem skeleton_emitted_despite_failed_self_check opts text hm hm' error :
  run_reads host opts text ->
  In Opt_m opts ->
  deserialize (XmlConverter := gHalManifestConverter) text = inr hm ->
  manifest_injection host hm hm' ->
  let gm := generateCompatibleMatrix hm' in
  checkCompatibility hm' gm "" = (false, error) ->
  let r := main host opts in
  (exists pre rest,
     events r =
       (pre ++
        [EvCerr (msg_fatal error);
         EvOut (out_stream host opts) skeleton_header;
         EvOut (out_stream host opts)
           (serialize (XmlConverter := gCompatibilityMatrixConverter) gm);
         EvFlush (out_stream host opts)] ++ rest)%list /\
     silent pre) /\
  (reference_accepts_manifest host opts hm' error ->
   value r = 0%Z /\
   written (events r) =
     skeleton_header ++
     serialize (XmlConverter := gCompatibilityMatrixConverter) gm).
Proof.
  intros Hrun Hm H1 Hinj gm Hself r. subst r.
  destruct (main_first_attempt opts text Hrun) as (rest & Hev & Hstop).
  destruct Hrun as [Hcfg Hin].
  pose proof (configured_skeleton opts Hcfg Hm) as Hskel.
  destruct (injectHalManifest_injection hm hm'
              (after_read (configured host opts)) Hinj) as (ievs & Hi & Hq).
  rewrite (tryHalManifest_inr host text hm _ H1) in Hev, Hstop.
  rewrite assembleHalManifest_eq, Hi in Hev, Hstop.
  cbn [value final events] in Hev, Hstop.
  rewrite (emitHalManifest_skeleton hm' _ Hskel) in Hev, Hstop.
  fold gm in Hev, Hstop. rewrite Hself in Hev, Hstop.
  cbn [value final events fst snd] in Hev, Hstop.
  split.
  - exists (events (configure host opts) ++
            EvRead InFile :: EvEnter AssembleHalManifest :: ievs)%list.
    eexists. split.
    + rewrite Hev. rewrite <- !app_assoc. cbn. rewrite <- !app_assoc. cbn.
      reflexivity.
    + apply silent_app; [apply configure_silent|].
      apply silent_cons; [discriminate|].
      apply silent_cons; [discriminate|]. now apply env_or_cerr_silent.
  - intros Hacc.
    destruct (checkHalManifest_accepts opts hm' error Hacc) as [Hok Hw].
    destruct (Hstop Hok) as [-> Hexit]. split; [exact Hexit|].
    rewrite Hev, written_app, configure_written. cbn.
    rewrite !written_app, (env_or_cerr_written _ Hq). cbn.
    rewrite Hw. cbn. now rewrite !append_nil_r.
Qed.

Lemma emitHalManifest_summary hm s :
  let re := emitHalManifest hm s in
  value re = error_before_check (mOutputMatrix (this s)) hm /\
  final re = s /\
  written (events re) = manifest_output (mOutputMatrix (this s)) hm /\
  reads_no_env (events re).
Proof.
  intros re. subst re. unfold error_before_check, manifest_output.
  destruct (mOutputMatrix (this s)) eqn:Hm.
  - rewrite (emitHalManifest_skeleton hm s Hm). cbn.
    destruct (fst (checkCompatibility hm (generateCompatibleMatrix hm) ""));
      cbn; rewrite append_nil_r;
      (repeat split; try reflexivity);
      intros key Hin; cbn in Hin; intuition discriminate.
  - rewrite (emitHalManifest_plain hm s Hm). cbn. rewrite append_nil_r.
    repeat split. intros key Hin; cbn in Hin; intuition discriminate.
Qed.

Lemma reads_no_env_app l1 l2 :
  reads_no_env l1 -> reads_no_env l2 -> reads_no_env (l1 ++ l2).
Proof.
  intros H1 H2 key Hin. apply in_app_or in Hin.
  destruct Hin as [Hin|Hin]; [eapply H1|eapply H2]; eassumption.
Qed.

Lemma injectCompatibilityMatrix_framework cm rawS v rawK k s :
  CompatibilityMatrix.mType cm = FRAMEWORK ->
  getenv host "BOARD_SEPOLICY_VERS" = Some rawS ->
  parse_Version rawS = Some v ->
  getenv host "POLICYVERS" = Some rawK ->
  parse_KernelSepolicyVersion rawK = Some k ->
  injectCompatibilityMatrix host cm s =
    mkResult
      (Some (CompatibilityMatrix.set_mSepolicy cm (new_Sepolicy k v))) s
      [EvGetenv "BOARD_SEPOLICY_VERS"; EvGetenv "POLICYVERS"].
Proof.
  intros Ht HrawS Hv HrawK Hk. unfold injectCompatibilityMatrix.
  rewrite Ht. run_unfold. cbn.
  rewrite (getFlag_parsed host _ _ _ _ s HrawS Hv). cbn.
  now rewrite (getFlag_parsed host _ _ _ _ s HrawK Hk).
Qed.

Lemma injectCompatibilityMatrix_device cm s :
  CompatibilityMatrix.mType cm = DEVICE ->
  injectCompatibilityMatrix host cm s = mkResult (Some cm) s [].
Proof. intros Ht. unfold injectCompatibilityMatrix. now rewrite Ht. Qed.

(** Claim C10.  Assembling a framework matrix whose two flags parse
    replaces its whole security-policy requirement: the kernel version
    is the parsed [POLICYVERS], the userspace list is the single pair
    (major, minor) of the parsed [BOARD_SEPOLICY_VERS], and nothing of
    the requirement parsed from the input remains; this matrix is the
    one serialized. *)
Theorem framework_matrix_sepolicy_replaced cm rawS v rawK k s :
  CompatibilityMatrix.mType cm = FRAMEWORK ->
  getenv host "BOARD_SEPOLICY_VERS" = Some rawS ->
  parse_Version rawS = Some v ->
  getenv host "POLICYVERS" = Some rawK ->
  parse_KernelSepolicyVersion rawK = Some k ->
  let r := assembleCompatibilityMatrix host cm s in
  let cm' := snd (value r) in
  CompatibilityMatrix.mSepolicy (CompatibilityMatrix.framework cm') =
    mkSepolicy k [(majorVer v, minorVer v)] /\
  cm' = CompatibilityMatrix.mk FRAMEWORK
          (CompatibilityMatrix.mkFramework
             (mkSepolicy k [(majorVer v, minorVer v)]))
          (CompatibilityMatrix.contents cm) /\
  exists rest,
    events r =
      ([EvEnter AssembleCompatibilityMatrix;
        EvGetenv "BOARD_SEPOLICY_VERS"; EvGetenv "POLICYVERS";
        EvOut (out (this s))
          (serialize (XmlConverter := gCompatibilityMatrixConverter) cm');
        EvFlush (out (this s))] ++ rest)%list.
Proof.
  intros Ht HrawS Hv HrawK Hk r cm'. subst cm' r.
  rewrite assembleCompatibilityMatrix_eq.
  rewrite (injectCompatibilityMatrix_framework cm rawS v rawK k s
             Ht HrawS Hv HrawK Hk).
  cbn. unfold CompatibilityMatrix.set_mSepolicy. rewrite Ht.
  repeat split. eexists. reflexivity.
Qed.

(** Claim C8, amended.  Assembling a framework manifest or a device
    matrix looks up no environment variable and leaves the parsed
    document as it is; what is written is the serialization of that
    document, except that with [-m] a manifest has the advisory comment
    and the matrix generated from it written instead. *)
Theorem other_kinds_left_unchanged hm cm s :
  HalManifest.mType hm = FRAMEWORK ->
  CompatibilityMatrix.mType cm = DEVICE ->
  let rm := assembleHalManifest host hm s in
  let rx := assembleCompatibilityMatrix host cm s in
  (snd (value rm) = hm /\ reads_no_env (events rm) /\
   (mOutputMatrix (this s) = false ->
    written (events rm) =
      serialize (XmlConverter := gHalManifestConverter) hm) /\
   (mOutputMatrix (this s) = true ->
    written (events rm) =
      skeleton_header ++
      serialize (XmlConverter := gCompatibilityMatrixConverter)
        (generateCompatibleMatrix hm))) /\
  (snd (value rx) = cm /\ reads_no_env (events rx) /\
   written (events rx) =
     serialize (XmlConverter := gCompatibilityMatrixConverter) cm).
Proof.
  intros Hm Hx rm rx. subst rm rx. split.
  - rewrite assembleHalManifest_eq, (injectHalManifest_framework hm s Hm).
    cbn [value final events app snd].
    destruct (emitHalManifest_summary hm s) as (_ & _ & Hw & Hne).
    pose proof (checkHalManifest_events hm
                  (value (emitHalManifest hm s)) s) as Hc.
    split; [reflexivity|]. split; [|split].
    + intros key [Hin|Hin]; [discriminate|]. revert key Hin.
      apply reads_no_env_app; [exact Hne|].
      now apply check_events_no_getenv.
    + intros Hplain. cbn. rewrite written_app, Hw, Hplain.
      rewrite (check_events_written _ Hc). apply append_nil_r.
    + intros Hskel. cbn. rewrite written_app, Hw, Hskel.
      rewrite (check_events_written _ Hc). apply append_nil_r.
  - rewrite assembleCompatibilityMatrix_eq,
      (injectCompatibilityMatrix_device cm s Hx).
    cbn [value final events app snd].
    pose proof (checkCompatibilityMatrix_events cm s) as Hc.
    split; [reflexivity|]. split.
    + intros key [Hin|[Hin|[Hin|Hin]]]; try discriminate.
      now apply (check_events_no_getenv _ Hc key).
    + cbn. rewrite (check_events_written _ Hc). apply append_nil_r.
Qed.

(** The manifest procedure keeps the output stream and never enters the
    matrix procedure. *)
Lemma assembleHalManifest_frame hm s :
  let r := assembleHalManifest host hm s in
  out (this (final r)) = out (this s) /\
  ~ In (EvEnter AssembleCompatibilityMatrix) (events r).
Proof.
  intros r. subst r. rewrite assembleHalManifest_eq. cbn.
  destruct (injectHalManifest_shape host hm s) as [_ Hq].
  destruct (value (injectHalManifest host hm s)) as [hm'|]; cbn.
  - split.
    + destruct (mCheckFile (this s)) as [ref|] eqn:Hc.
      * rewrite (checkHalManifest_open hm' _ s ref Hc).
        destruct (deserialize ref) as [e|cmref]; [reflexivity|].
        cbn. destruct (fst (checkCompatibility hm' cmref _)); reflexivity.
      * now rewrite (checkHalManifest_closed hm' _ s Hc).
    + intros [Hin|Hin]; [discriminate|].
      apply in_app_or in Hin. destruct Hin as [Hin|Hin].
      { now apply (env_or_cerr_no_enter _ _ Hq) in Hin. }
      apply in_app_or in Hin. destruct Hin as [Hin|Hin].
      * destruct (emitHalManifest_events hm' s)
          as (pre & text & E & _ & _ & Hpre).
        rewrite E in Hin. apply in_app_or in Hin.
        destruct Hin as [Hin|[Hin|[Hin|[]]]]; try discriminate.
        now apply (Hpre _ Hin).
      * now apply (check_events_no_enter _ _
                     (checkHalManifest_events hm' _ s)) in Hin.
  - split; [reflexivity|].
    intros [Hin|Hin]; [discriminate|].
    now apply (env_or_cerr_no_enter _ _ Hq) in Hin.
Qed.

Lemma assembleHalManifest_enters hm s :
  exists tail,
    events (assembleHalManifest host hm s) =
      EvEnter AssembleHalManifest :: tail.
Proof.
  rewrite assembleHalManifest_eq. cbn.
  destruct (value (injectHalManifest host hm s)); cbn; eexists; reflexivity.
Qed.

Lemma assembleCompatibilityMatrix_enters cm s :
  exists tail,
    events (assembleCompatibilityMatrix host cm s) =
      EvEnter AssembleCompatibilityMatrix :: tail.
Proof.
  rewrite assembleCompatibilityMatrix_eq. cbn.
  destruct (value (injectCompatibilityMatrix host cm s)); cbn;
    eexists; reflexivity.
Qed.

(** A matrix procedure that succeeds has written its matrix. *)
Lemma assembleCompatibilityMatrix_success cm s :
  let r := assembleCompatibilityMatrix host cm s in
  fst (value r) = true ->
  matrix_injection host cm (snd (value r)) /\
  In (EvOut (out (this s))
        (serialize (XmlConverter := gCompatibilityMatrixConverter)
           (snd (value r))))
     (events r).
Proof.
  intros r. subst r. rewrite assembleCompatibilityMatrix_eq. cbn.
  destruct (value (injectCompatibilityMatrix host cm s)) as [cm'|] eqn:Hi;
    cbn; [|discriminate].
  intros _. split.
  - now apply (injectCompatibilityMatrix_inv host cm cm' s).
  - right. apply in_or_app. right. now left.
Qed.

(** A run whose manifest attempt fails goes on with the matrix attempt. *)
Lemma main_second_attempt opts text :
  run_reads host opts text ->
  let r1 := tryHalManifest host text (after_read (configured host opts)) in
  let r2 := tryCompatibilityMatrix host text (final r1) in
  value r1 = false ->
  exists rest,
    events (main host opts) =
      (events (configure host opts) ++
       EvRead InFile :: events r1 ++ events r2 ++ rest)%list /\
    forallb is_cerr rest = true /\
    value (main host opts) = exit_code (value r2) /\
    (value r2 = true -> rest = []).
Proof.
  intros [Hcfg Hin] r1 r2 Hfail. rewrite (main_eq host opts Hcfg). cbn.
  rewrite (assemble_eq host _ text Hin). cbn. fold r1. rewrite Hfail.
  fold r2. destruct (value r2); cbn.
  - exists []. rewrite app_nil_r. repeat split.
  - eexists. repeat split. intros; discriminate.
Qed.

(** Claim C9.  When the input parses as a manifest and the manifest
    procedure fails, the run goes on to convert the same text to a
    matrix and to assemble it; when that succeeds the run exits 0 and
    the matrix serialization is written. *)
Theorem failed_manifest_assembly_falls_through opts text hm :
  run_reads host opts text ->
  deserialize (XmlConverter := gHalManifestConverter) text = inr hm ->
  let r1 := assembleHalManifest host hm (after_read (configured host opts)) in
  fst (value r1) = false ->
  let r2 := tryCompatibilityMatrix host text (final r1) in
  let r := main host opts in
  (exists rest,
     events r =
       (events (configure host opts) ++
        EvRead InFile :: events r1 ++ events r2 ++ rest)%list /\
     forallb is_cerr rest = true) /\
  (forall cm,
     deserialize (XmlConverter := gCompatibilityMatrixConverter) text =
       inr cm ->
     let rx := assembleCompatibilityMatrix host cm (final r1) in
     events r2 = events rx /\
     (exists tail, events rx = EvEnter AssembleCompatibilityMatrix :: tail) /\
     (fst (value rx) = true ->
      value r = 0%Z /\
      matrix_injection host cm (snd (value rx)) /\
      In (EvOut (out_stream host opts)
            (serialize (XmlConverter := gCompatibilityMatrixConverter)
               (snd (value rx))))
         (events r))).
Proof.
  intros Hrun H1 r1 Hfail r2 r.
  pose proof (main_second_attempt opts text Hrun) as H2. cbn zeta in H2.
  rewrite (tryHalManifest_inr host text hm _ H1) in H2.
  cbn [value final events] in H2. fold r1 in H2. fold r2 in H2.
  destruct (H2 Hfail) as (rest & Hev & Hrest & Hexit & Hstop).
  fold r in Hev, Hexit. split.
  - exists rest. now split.
  - intros cm Hcm rx.
    assert (E2 : r2 = mkResult (fst (value rx)) (final rx) (events rx)).
    { subst r2. now rewrite (tryCompatibilityMatrix_inr host text cm _ Hcm). }
    split; [now rewrite E2|]. split.
    { apply assembleCompatibilityMatrix_enters. }
    intros Hok. rewrite E2 in Hexit. cbn in Hexit. rewrite Hok in Hexit.
    split; [exact Hexit|].
    destruct (assembleCompatibilityMatrix_success cm (final r1) Hok)
      as [Hinj Hin].
    split; [exact Hinj|]. rewrite Hev.
    apply in_or_app. right. right. apply in_or_app. right.
    apply in_or_app. left. rewrite E2. cbn.
    destruct (assembleHalManifest_frame hm
                (after_read (configured host opts))) as [Hout _].
    fold r1 in Hout. unfold out_stream.
    change (out (this (configured host opts)))
      with (out (this (after_read (configured host opts)))).
    rewrite <- Hout. exact Hin.
Qed.

(** Claim C1, amended.  For a text that parses both as a manifest and as
    a matrix the run enters the manifest procedure first; it enters the
    matrix procedure exactly when the manifest procedure fails, and
    exits 0 without entering it when the manifest procedure succeeds. *)
Theorem dual_valid_input_tries_manifest_first opts text hm cm :
  run_reads host opts text ->
  deserialize (XmlConverter := gHalManifestConverter) text = inr hm ->
  deserialize (XmlConverter := gCompatibilityMatrixConverter) text = inr cm ->
  let r1 := assembleHalManifest host hm (after_read (configured host opts)) in
  let r := main host opts in
  (exists rest,
     events r =
       (events (configure host opts) ++
        EvRead InFile :: EvEnter AssembleHalManifest :: rest)%list) /\
  (fst (value r1) = true ->
   value r = 0%Z /\ ~ In (EvEnter AssembleCompatibilityMatrix) (events r)) /\
  (fst (value r1) = false ->
   In (EvEnter AssembleCompatibilityMatrix) (events r)).
Proof.
  intros Hrun H1 H2 r1 r.
  destruct (main_first_attempt opts text Hrun) as (rest & Hev & Hstop).
  rewrite (tryHalManifest_inr host text hm _ H1) in Hev, Hstop.
  cbn [value final events] in Hev, Hstop. fold r1 in Hev, Hstop.
  fold r in Hev, Hstop.
  destruct (assembleHalManifest_frame hm
              (after_read (configured host opts))) as [_ Hno].
  fold r1 in Hno.
  split; [|split].
  - destruct (assembleHalManifest_enters hm
                (after_read (configured host opts))) as (tail & Ht).
    fold r1 in Ht. rewrite Hev, Ht. eexists. cbn. reflexivity.
  - intros Hok. destruct (Hstop Hok) as [-> Hexit]. split; [exact Hexit|].
    rewrite Hev, app_nil_r. intros Hin. apply in_app_or in Hin.
    destruct Hin as [Hin|[Hin|Hin]]; [|discriminate|now apply Hno].
    apply (cerr_only_In _ _ (option_loop_cerr host opts _ _)) in Hin.
    discriminate.
  - intros Hfail.
    pose proof (main_second_attempt opts text Hrun) as Hsnd.
    cbn zeta in Hsnd.
    rewrite (tryHalManifest_inr host text hm _ H1) in Hsnd.
    cbn [value final events] in Hsnd. fold r1 in Hsnd.
    destruct (Hsnd Hfail) as (rest' & Hev' & _).
    rewrite (tryCompatibilityMatrix_inr host text cm _ H2) in Hev'.
    cbn [value final events] in Hev'.
    destruct (assembleCompatibilityMatrix_enters cm (final r1))
      as (tail & Ht).
    rewrite Ht in Hev'. fold r in Hev'. rewrite Hev'.
    apply in_or_app. right. right. apply in_or_app. right. now left.
Qed.

(** *** Failed flag lookups *)

Lemma assembleHalManifest_flag_fails hm d s :
  HalManifest.mType hm = DEVICE ->
  flag_fails host parse_Version "BOARD_SEPOLICY_VERS" d ->
  assembleHalManifest host hm s =
    mkResult (false, hm) s
      [EvEnter AssembleHalManifest; EvGetenv "BOARD_SEPOLICY_VERS";
       EvCerr d].
Proof.
  intros Ht Hf. rewrite assembleHalManifest_eq.
  unfold injectHalManifest. rewrite Ht. run_unfold. cbn.
  now rewrite (getFlag_fails host _ _ _ s Hf).
Qed.

Lemma assembleCompatibilityMatrix_first_flag_fails cm d s :
  CompatibilityMatrix.mType cm = FRAMEWORK ->
  flag_fails host parse_Version "BOARD_SEPOLICY_VERS" d ->
  assembleCompatibilityMatrix host cm s =
    mkResult (false, cm) s
      [EvEnter AssembleCompatibilityMatrix; EvGetenv "BOARD_SEPOLICY_VERS";
       EvCerr d].
Proof.
  intros Ht Hf. rewrite assembleCompatibilityMatrix_eq.
  unfold injectCompatibilityMatrix. rewrite Ht. run_unfold. cbn.
  now rewrite (getFlag_fails host _ _ _ s Hf).
Qed.

Lemma assembleCompatibilityMatrix_second_flag_fails cm raw v d s :
  CompatibilityMatrix.mType cm = FRAMEWORK ->
  getenv host "BOARD_SEPOLICY_VERS" = Some raw ->
  parse_Version raw = Some v ->
  flag_fails host parse_KernelSepolicyVersion "POLICYVERS" d ->
  assembleCompatibilityMatrix host cm s =
    mkResult (false, cm) s
      [EvEnter AssembleCompatibilityMatrix; EvGetenv "BOARD_SEPOLICY_VERS";
       EvGetenv "POLICYVERS"; EvCerr d].
Proof.
  intros Ht Hraw Hv Hf. rewrite assembleCompatibilityMatrix_eq.
  unfold injectCompatibilityMatrix. rewrite Ht. run_unfold. cbn.
  rewrite (getFlag_parsed host _ _ _ _ s Hraw Hv). cbn.
  now rewrite (getFlag_fails host _ _ _ s Hf).
Qed.

Lemma assembleCompatibilityMatrix_flag_fails cm d s :
  CompatibilityMatrix.mType cm = FRAMEWORK ->
  matrix_flag_fails host d ->
  exists evs,
    assembleCompatibilityMatrix host cm s = mkResult (false, cm) s evs /\
    In (EvCerr d) evs /\ silent evs.
Proof.
  intros Ht [Hf|raw v Hraw Hv Hf].
  - rewrite (assembleCompatibilityMatrix_first_flag_fails cm d s Ht Hf).
    eexists. split; [reflexivity|]. split; [find_in|].
    repeat (apply silent_cons; [discriminate|]). apply silent_nil.
  - rewrite (assembleCompatibilityMatrix_second_flag_fails cm raw v d s
               Ht Hraw Hv Hf).
    eexists. split; [reflexivity|]. split; [find_in|].
    repeat (apply silent_cons; [discriminate|]). apply silent_nil.
Qed.

(** Claim C6, amended.  A lookup of an absent variable fails with the
    diagnostic naming it, a lookup of a value that does not parse fails
    with the diagnostic quoting it, and the procedure that made the lookup
    then fails having written nothing.  A lookup that fails in the matrix
    procedure makes the run exit 1; one that fails in the manifest
    procedure makes the run exit 1 unless the matrix attempt on the same
    text then succeeds, so always when the text does not parse as a
    matrix. *)
Theorem failed_lookup_fails_assembly opts text :
  run_reads host opts text ->
  let s1 := after_read (configured host opts) in
  let r := main host opts in
  (forall T (parse : string -> option T) key s,
     (getenv host key = None ->
      getFlag host parse key s =
        mkResult None s
          [EvGetenv key; EvCerr ("Required " ++ key ++ " flag." ++ endl)]) /\
     (forall raw,
        getenv host key = Some raw -> parse raw = None ->
        getFlag host parse key s =
          mkResult None s
            [EvGetenv key; EvCerr ("Cannot parse " ++ raw ++ "." ++ endl)])) /\
  (forall hm d,
     deserialize (XmlConverter := gHalManifestConverter) text = inr hm ->
     HalManifest.mType hm = DEVICE ->
     flag_fails host parse_Version "BOARD_SEPOLICY_VERS" d ->
     let rm := assembleHalManifest host hm s1 in
     let r2 := tryCompatibilityMatrix host text s1 in
     value rm = (false, hm) /\ silent (events rm) /\
     In (EvCerr d) (events r) /\
     value r = exit_code (value r2) /\
     (forall e,
        deserialize (XmlConverter := gCompatibilityMatrixConverter) text =
          inl e ->
        value r = 1%Z /\ silent (events r))) /\
  (forall cm d,
     let r1 := tryHalManifest host text s1 in
     value r1 = false ->
     deserialize (XmlConverter := gCompatibilityMatrixConverter) text =
       inr cm ->
     CompatibilityMatrix.mType cm = FRAMEWORK ->
     matrix_flag_fails host d ->
     let rx := assembleCompatibilityMatrix host cm (final r1) in
     value rx = (false, cm) /\ silent (events rx) /\
     In (EvCerr d) (events r) /\ value r = 1%Z).
Proof.
  intros Hrun s1 r. split; [|split].
  - intros T parse key s. split.
    + intros Habs. now apply getFlag_absent.
    + intros raw Hraw Hv. now apply getFlag_unparseable.
  - intros hm d H1 Ht Hf rm r2.
    pose proof (main_second_attempt opts text Hrun) as Hsnd.
    cbn zeta in Hsnd. fold s1 in Hsnd.
    rewrite (tryHalManifest_inr host text hm s1 H1) in Hsnd.
    subst rm. rewrite (assembleHalManifest_flag_fails hm d s1 Ht Hf) in *.
    cbn [value final events fst] in Hsnd. fold r2 in Hsnd. fold r in Hsnd.
    destruct (Hsnd eq_refl) as (rest & Hev & Hrest & Hexit & _).
    split; [reflexivity|]. split.
    { repeat (apply silent_cons; [discriminate|]). apply silent_nil. }
    split; [rewrite Hev; find_in|]. split; [exact Hexit|].
    intros e H2. subst r2.
    rewrite (tryCompatibilityMatrix_inl host text e s1 H2) in Hev, Hexit.
    split; [exact Hexit|]. rewrite Hev.
    apply silent_app; [apply configure_silent|].
    repeat (apply silent_cons; [discriminate|]).
    now apply cerr_only_silent.
  - intros cm d r1 Hfail H2 Ht Hf rx.
    pose proof (main_second_attempt opts text Hrun) as Hsnd.
    cbn zeta in Hsnd. fold s1 in Hsnd. fold r1 in Hsnd.
    destruct (Hsnd Hfail) as (rest & Hev & Hrest & Hexit & _).
    fold r in Hev, Hexit.
    rewrite (tryCompatibilityMatrix_inr host text cm _ H2) in Hev, Hexit.
    cbn [value final events] in Hev, Hexit. fold rx in Hev, Hexit.
    destruct (assembleCompatibilityMatrix_flag_fails cm d (final r1) Ht Hf)
      as (evs & Hx & Hd & Hsilent).
    fold rx in Hx. rewrite Hx in Hev, Hexit |- *.
    cbn [value final events fst] in Hev, Hexit |- *.
    split; [reflexivity|]. split; [exact Hsilent|].
    split; [|exact Hexit].
    rewrite Hev. apply in_or_app. right. right.
    apply in_or_app. right. apply in_or_app. now left.
Qed.

(** *** Emission before the reference check *)






End Claims.

(** ** Further properties of the tool *)

Section Extras.
Context {L : VintfLib}.
Variable host : Host.

(** *** The option loop *)

(** One turn of the loop, option by option. *)
Lemma option_loop_i optarg rest path s :
  option_loop host (Opt_i optarg :: rest) path s =
    match mInFile (this s) with
    | Some _ => option_loop host rest optarg s
    | None =>
        match readable host optarg with
        | Some text =>
            option_loop host rest optarg
              (mkState
                 (mkAssembleVintf (Some text) (mOutFileRef (this s))
                    (mCheckFile (this s)) (mOutputMatrix (this s)))
                 (manifestLastError s) (matrixLastError s))
        | None =>
            mkResult (Some 1%Z)
              (mkState
                 (mkAssembleVintf None (mOutFileRef (this s))
                    (mCheckFile (this s)) (mOutputMatrix (this s)))
                 (manifestLastError s) (matrixLastError s))
              [EvCerr (msg_failed_to_open optarg)]
        end
    end.
Proof.
  cbn [option_loop]. unfold openInFile. run_unfold. cbn.
  destruct (mInFile (this s)); cbn.
  - now destruct (option_loop host rest optarg s).
  - destruct (readable host optarg); cbn; [|reflexivity].
    now destruct (option_loop host rest optarg _).
Qed.

Lemma option_loop_o optarg rest path s :
  option_loop host (Opt_o optarg :: rest) path s =
    if writable host optarg then
      option_loop host rest path
        (mkState
           (mkAssembleVintf (mInFile (this s)) (Some (Some optarg))
              (mCheckFile (this s)) (mOutputMatrix (this s)))
           (manifestLastError s) (matrixLastError s))
    else
      mkResult (Some 1%Z)
        (mkState
           (mkAssembleVintf (mInFile (this s)) (Some None)
              (mCheckFile (this s)) (mOutputMatrix (this s)))
           (manifestLastError s) (matrixLastError s))
        [EvCerr (msg_failed_to_open optarg)].
Proof.
  cbn [option_loop]. unfold openOutFile. run_unfold. cbn.
  destruct (writable host optarg); cbn; [|reflexivity].
  now destruct (option_loop host rest path _).
Qed.

Lemma option_loop_m rest path s :
  option_loop host (Opt_m :: rest) path s =
    option_loop host rest path (with_mOutputMatrix true s).
Proof.
  cbn [option_loop]. unfold setOutputMatrix. run_unfold. cbn.
  now destruct (option_loop host rest path _).
Qed.

Lemma option_loop_c_empty optarg rest path s :
  (String.length optarg =? 0)%nat = true ->
  option_loop host (Opt_c optarg :: rest) path s =
    let r := option_loop host rest path s in
    mkResult (value r) (final r) (EvCerr (msg_no_check path) :: events r).
Proof.
  intros H. cbn [option_loop]. rewrite H. run_unfold. reflexivity.
Qed.

Lemma option_loop_c optarg rest path s :
  (String.length optarg =? 0)%nat = false ->
  option_loop host (Opt_c optarg :: rest) path s =
    match mCheckFile (this s) with
    | Some _ => option_loop host rest path s
    | None =>
        match readable host optarg with
        | Some text =>
            option_loop host rest path
              (mkState
                 (mkAssembleVintf (mInFile (this s)) (mOutFileRef (this s))
                    (Some text) (mOutputMatrix (this s)))
                 (manifestLastError s) (matrixLastError s))
        | None =>
            mkResult (Some 1%Z)
              (mkState
                 (mkAssembleVintf (mInFile (this s)) (mOutFileRef (this s))
                    None (mOutputMatrix (this s)))
                 (manifestLastError s) (matrixLastError s))
              [EvCerr (msg_failed_to_open optarg)]
        end
    end.
Proof.
  intros H. cbn [option_loop]. rewrite H. unfold openCheckFile.
  run_unfold. cbn.
  destruct (mCheckFile (this s)); cbn.
  - now destruct (option_loop host rest path s).
  - destruct (readable host optarg); cbn; [|reflexivity].
    now destruct (option_loop host rest path _).
Qed.

Lemma option_loop_help o rest path s :
  asks_help o = true ->
  option_loop host (o :: rest) path s =
    mkResult (Some 1%Z) s (getopt_events o ++ [EvCerr help_text]).
Proof. destruct o; try discriminate; reflexivity. Qed.


(** The loop over [pre ++ post]: the loop over [pre] and, unless it
    returned, the loop over [post] from where it stopped. *)
Lemma option_loop_app pre post path s :
  option_loop host (pre ++ post) path s =
    let r := option_loop host pre path s in
    match value r with
    | Some _ => r
    | None =>
        let r' := option_loop host post (last_input pre path) (final r) in
        mkResult (value r') (final r') (events r ++ events r')
    end.
Proof.
  revert path s. induction pre as [|o pre IH]; intros path s.
  - cbn. now destruct (option_loop host post path s).
  - destruct o; cbn [app last_input].
    + rewrite !option_loop_i.
      destruct (mInFile (this s)); [apply IH|].
      destruct (readable host optarg); [apply IH|reflexivity].
    + rewrite !option_loop_o.
      destruct (writable host optarg); [apply IH|reflexivity].
    + rewrite !option_loop_m. apply IH.
    + destruct (String.length optarg =? 0)%nat eqn:E.
      * rewrite !(option_loop_c_empty _ _ _ _ E). cbn zeta. rewrite IH.
        cbn zeta.
        destruct (option_loop host pre path s) as [[code|] s' evs];
          reflexivity.
      * rewrite !(option_loop_c _ _ _ _ E).
        destruct (mCheckFile (this s)); [apply IH|].
        destruct (readable host optarg); [apply IH|reflexivity].
    + rewrite !(option_loop_help Opt_h) by reflexivity. reflexivity.
    + rewrite !(option_loop_help (Opt_unrecognized message)) by reflexivity.
      reflexivity.
Qed.

(** Whenever the loop returns, it returns 1 and the last thing it did
    was to log a diagnostic. *)
Lemma option_loop_return opts path s code :
  value (option_loop host opts path s) = Some code ->
  code = 1%Z /\
  exists before d,
    events (option_loop host opts path s) = (before ++ [EvCerr d])%list.
Proof.
  revert path s. induction opts as [|o opts IH]; intros path s;
    [discriminate|].
  destruct o.
  - rewrite option_loop_i.
    destruct (mInFile (this s)); [apply IH|].
    destruct (readable host optarg); [apply IH|].
    intros [= <-]. split; [reflexivity|]. now exists [], (msg_failed_to_open optarg).
  - rewrite option_loop_o.
    destruct (writable host optarg); [apply IH|].
    intros [= <-]. split; [reflexivity|]. now exists [], (msg_failed_to_open optarg).
  - rewrite option_loop_m. apply IH.
  - destruct (String.length optarg =? 0)%nat eqn:E.
    + rewrite (option_loop_c_empty _ _ _ _ E). cbn. intros H.
      destruct (IH _ _ H) as (Hc & before & d & ->).
      split; [exact Hc|]. now exists (EvCerr (msg_no_check path) :: before), d.
    + rewrite (option_loop_c _ _ _ _ E).
      destruct (mCheckFile (this s)); [apply IH|].
      destruct (readable host optarg); [apply IH|].
      intros [= <-]. split; [reflexivity|].
      now exists [], (msg_failed_to_open optarg).
  - rewrite (option_loop_help Opt_h) by reflexivity.
    intros [= <-]. split; [reflexivity|]. now exists [], help_text.
  - rewrite (option_loop_help (Opt_unrecognized message)) by reflexivity.
    intros [= <-]. split; [reflexivity|].
    now exists [EvCerr message], help_text.
Qed.

(** What the loop leaves in the object when it completes. *)
Lemma option_loop_completes opts path s :
  value (option_loop host opts path s) = None ->
  let a := this (final (option_loop host opts path s)) in
  mInFile a =
    match mInFile (this s), first_input opts with
    | Some text, _ => Some text
    | None, Some optarg => readable host optarg
    | None, None => None
    end /\
  mCheckFile a =
    match mCheckFile (this s), first_check opts with
    | Some text, _ => Some text
    | None, Some optarg => readable host optarg
    | None, None => None
    end /\
  mOutFileRef a =
    match last_output opts with
    | Some optarg => Some (Some optarg)
    | None => mOutFileRef (this s)
    end /\
  manifestLastError (final (option_loop host opts path s)) =
    manifestLastError s /\
  matrixLastError (final (option_loop host opts path s)) =
    matrixLastError s.
Proof.
  revert path s. induction opts as [|o opts IH]; intros path s.
  - intros _. cbn. destruct (mInFile (this s)), (mCheckFile (this s));
      repeat split.
  - destruct o; cbn [first_input first_check last_output].
    + rewrite option_loop_i.
      destruct (mInFile (this s)) as [text|] eqn:Hi.
      * intros H. destruct (IH _ _ H) as (H1 & H2 & H3 & H4 & H5).
        rewrite Hi in H1. repeat split; try assumption.
        all: now destruct (first_input opts).
      * destruct (readable host optarg) as [text|] eqn:Hr; [|discriminate].
        intros H. destruct (IH _ _ H) as (H1 & H2 & H3 & H4 & H5).
        cbn in H1, H2, H3, H4, H5. repeat split; assumption.
    + rewrite option_loop_o.
      destruct (writable host optarg); [|discriminate].
      intros H. destruct (IH _ _ H) as (H1 & H2 & H3 & H4 & H5).
      cbn in H1, H2, H3, H4, H5. repeat split; try assumption.
      all: now destruct (last_output opts).
    + rewrite option_loop_m.
      intros H. destruct (IH _ _ H) as (H1 & H2 & H3 & H4 & H5).
      cbn in H1, H2, H3, H4, H5. repeat split; assumption.
    + destruct (String.length optarg =? 0)%nat eqn:E.
      * rewrite (option_loop_c_empty _ _ _ _ E). cbn. apply IH.
      * rewrite (option_loop_c _ _ _ _ E).
        destruct (mCheckFile (this s)) as [text|] eqn:Hc.
        -- intros H. destruct (IH _ _ H) as (H1 & H2 & H3 & H4 & H5).
           rewrite Hc in H2. repeat split; try assumption.
           all: now destruct (first_check opts).
        -- destruct (readable host optarg) as [text|] eqn:Hr;
             [|discriminate].
           intros H. destruct (IH _ _ H) as (H1 & H2 & H3 & H4 & H5).
           cbn in H1, H2, H3, H4, H5. repeat split; assumption.
    + rewrite (option_loop_help Opt_h) by reflexivity. discriminate.
    + rewrite (option_loop_help (Opt_unrecognized message)) by reflexivity.
      discriminate.
Qed.


(** [main] in both cases of the loop. *)
Lemma main_cases opts :
  main host opts =
    match value (configure host opts) with
    | Some code =>
        mkResult code (configured host opts) (events (configure host opts))
    | None =>
        let r := assemble host (configured host opts) in
        mkResult (exit_code (value r)) (final r)
          (events (configure host opts) ++ events r)
    end.
Proof.
  destruct (value (configure host opts)) as [code|] eqn:H.
  - unfold main, main_body, configured, configure in *. run_unfold.
    rewrite H. cbn. now rewrite app_nil_r.
  - now apply main_eq.
Qed.

(** The loop over [pre ++ o :: post] when it gets through [pre]. *)
Lemma configure_app pre rest :
  value (configure host pre) = None ->
  configure host (pre ++ rest) =
    let r' := option_loop host rest (last_input pre "") (configured host pre) in
    mkResult (value r') (final r') (events (configure host pre) ++ events r').
Proof.
  intros H. unfold configure, configured in *. rewrite option_loop_app.
  cbn zeta. now rewrite H.
Qed.

(** Property X1.  Whenever [main] returns from inside the option loop it
    returns 1, and all the run has done is to write diagnostics to the
    error stream, the last event being one: no file content is read, no
    environment variable looked up, nothing written to the output. *)
Theorem return_from_option_loop_is_exit_1 opts code :
  value (configure host opts) = Some code ->
  let r := main host opts in
  value r = 1%Z /\
  forallb is_cerr (events r) = true /\
  exists before d, events r = (before ++ [EvCerr d])%list.
Proof.
  intros H r. subst r. rewrite main_cases, H. cbn.
  destruct (option_loop_return opts "" initial_state code H)
    as (-> & before & d & Hev).
  split; [reflexivity|]. split; [apply option_loop_cerr|].
  now exists before, d.
Qed.


(** Property X3.  When the option loop completes, the output stream is
    the file of the last [-o], and standard output when there is no
    [-o]. *)
Theorem output_is_the_last_o opts :
  value (configure host opts) = None ->
  out_stream host opts =
    match last_output opts with
    | Some optarg => out_file (Some optarg)
    | None => std_cout
    end.
Proof.
  intros H.
  destruct (option_loop_completes opts "" initial_state H) as (_ & _ & H3 & _).
  cbn in H3. unfold out_stream, out, configured, configure. rewrite H3.
  now destruct (last_output opts).
Qed.


(** Property X5.  Without any [-i], a run whose option loop completes
    exits 1 and does nothing but log that the input file is missing. *)
Theorem no_i_option_is_missing_input opts :
  first_input opts = None ->
  value (configure host opts) = None ->
  let r := main host opts in
  value r = 1%Z /\
  events r =
    (events (configure host opts) ++
     [EvCerr ("Missing input file." ++ endl)])%list.
Proof.
  intros Hno H r. subst r. rewrite main_cases, H.
  destruct (option_loop_completes opts "" initial_state H) as (H1 & _).
  cbn in H1. rewrite Hno in H1.
  fold (configure host opts) in H1. fold (configured host opts) in H1.
  unfold assemble. run_unfold. cbn. rewrite H1. cbn. split; reflexivity.
Qed.



(** Property X7.  [-h] or an option [getopt_long] refuses ends the run
    at once: exit 1, the usage text on the error stream, after the line
    [getopt_long] itself has written there when it refused the option;
    the object is left as the options before made it, and the options
    after are not looked at. *)
Theorem help_stops_the_run pre o post :
  value (configure host pre) = None ->
  asks_help o = true ->
  let r := main host (pre ++ o :: post) in
  value r = 1%Z /\
  final r = configured host pre /\
  events r =
    (events (configure host pre) ++ getopt_events o ++
     [EvCerr help_text])%list.
Proof.
  intros H Hh r. subst r.
  rewrite main_cases, (configure_app pre (o :: post) H). cbn zeta.
  rewrite (option_loop_help o post _ _ Hh). cbn. unfold configured at 1.
  rewrite (configure_app pre (o :: post) H). cbn zeta.
  rewrite (option_loop_help o post _ _ Hh). repeat split.
Qed.

(** Property X8.  A [-c] with an empty argument only adds a warning,
    which names the argument of the last [-i] before it: exit code, final
    state and all other events are those of the command line without
    it. *)
Theorem empty_c_only_warns pre post :
  value (configure host pre) = None ->
  let r := main host (pre ++ Opt_c "" :: post) in
  let r' := main host (pre ++ post) in
  value r = value r' /\
  final r = final r' /\
  exists tail,
    events r' = (events (configure host pre) ++ tail)%list /\
    events r =
      (events (configure host pre) ++
       EvCerr (msg_no_check (last_input pre "")) :: tail)%list.
Proof.
  intros H r r'. subst r r'.
  rewrite !main_cases. unfold configured.
  rewrite (configure_app pre (Opt_c "" :: post) H),
    (configure_app pre post H).
  cbn zeta. rewrite (option_loop_c_empty "" post _ _ eq_refl). cbn zeta.
  cbn [value final events].
  destruct (value (option_loop host post (last_input pre "")
                     (configured host pre))); cbn.
  - repeat split. eexists. split; reflexivity.
  - repeat split. eexists. split.
    + rewrite <- app_assoc. reflexivity.
    + rewrite <- app_assoc. reflexivity.
Qed.


(** *** What a run can log *)

Lemma cerr_only_permitted o evs :
  forallb is_cerr evs = true -> Forall (permitted o) evs.
Proof.
  induction evs as [|e evs IH]; [constructor|].
  cbn. intros H. apply andb_true_iff in H as [He H].
  destruct e; try discriminate. constructor; [constructor|now apply IH].
Qed.

Lemma check_events_permitted o evs :
  check_events evs -> Forall (permitted o) evs.
Proof.
  intros [->|(tail & -> & Ht)]; [constructor|].
  constructor; [constructor|now apply cerr_only_permitted].
Qed.

Lemma injectHalManifest_permitted o hm s :
  Forall (permitted o) (events (injectHalManifest host hm s)).
Proof.
  unfold injectHalManifest.
  destruct (HalManifest.mType hm); [|constructor].
  run_unfold. cbn.
  destruct (getFlag_shape host parse_Version "BOARD_SEPOLICY_VERS" s)
    as (_ & tail & -> & Ht).
  rewrite app_nil_r.
  constructor; [constructor|now apply cerr_only_permitted].
Qed.

Lemma injectCompatibilityMatrix_permitted o cm s :
  Forall (permitted o) (events (injectCompatibilityMatrix host cm s)).
Proof.
  unfold injectCompatibilityMatrix, getFlag. run_unfold.
  split_cases; repeat constructor.
Qed.

Lemma emitHalManifest_permitted hm s :
  Forall (permitted (out (this s))) (events (emitHalManifest hm s)).
Proof.
  destruct (mOutputMatrix (this s)) eqn:Hm.
  - rewrite (emitHalManifest_skeleton hm s Hm). cbn.
    destruct (fst (checkCompatibility hm (generateCompatibleMatrix hm) ""));
      repeat constructor.
  - rewrite (emitHalManifest_plain hm s Hm). repeat constructor.
Qed.

Lemma assembleHalManifest_permitted hm s :
  Forall (permitted (out (this s))) (events (assembleHalManifest host hm s)).
Proof.
  rewrite assembleHalManifest_eq. cbn zeta.
  pose proof (injectHalManifest_permitted (out (this s)) hm s) as Hi.
  destruct (value (injectHalManifest host hm s)) as [hm'|]; cbn.
  - constructor; [constructor|].
    apply Forall_app. split; [exact Hi|].
    apply Forall_app. split; [apply emitHalManifest_permitted|].
    apply check_events_permitted, checkHalManifest_events.
  - constructor; [constructor|exact Hi].
Qed.

Lemma assembleCompatibilityMatrix_permitted cm s :
  Forall (permitted (out (this s)))
    (events (assembleCompatibilityMatrix host cm s)).
Proof.
  rewrite assembleCompatibilityMatrix_eq. cbn zeta.
  pose proof (injectCompatibilityMatrix_permitted (out (this s)) cm s) as Hi.
  destruct (value (injectCompatibilityMatrix host cm s)) as [cm'|]; cbn.
  - constructor; [constructor|].
    apply Forall_app. split; [exact Hi|].
    constructor; [constructor|]. constructor; [constructor|].
    apply check_events_permitted, checkCompatibilityMatrix_events.
  - constructor; [constructor|exact Hi].
Qed.

(** The two attempts keep the output stream. *)
Lemma tryHalManifest_out text s :
  out (this (final (tryHalManifest host text s))) = out (this s).
Proof.
  destruct (deserialize (XmlConverter := gHalManifestConverter) text)
    as [e|hm] eqn:H.
  - now rewrite (tryHalManifest_inl host text e s H).
  - rewrite (tryHalManifest_inr host text hm s H). cbn.
    apply assembleHalManifest_frame.
Qed.

Lemma tryHalManifest_permitted text s :
  Forall (permitted (out (this s))) (events (tryHalManifest host text s)).
Proof.
  destruct (deserialize (XmlConverter := gHalManifestConverter) text)
    as [e|hm] eqn:H.
  - rewrite (tryHalManifest_inl host text e s H). constructor.
  - rewrite (tryHalManifest_inr host text hm s H).
    apply assembleHalManifest_permitted.
Qed.

Lemma tryCompatibilityMatrix_permitted text s :
  Forall (permitted (out (this s)))
    (events (tryCompatibilityMatrix host text s)).
Proof.
  destruct (deserialize (XmlConverter := gCompatibilityMatrixConverter) text)
    as [e|cm] eqn:H.
  - rewrite (tryCompatibilityMatrix_inl host text e s H). constructor.
  - rewrite (tryCompatibilityMatrix_inr host text cm s H).
    apply assembleCompatibilityMatrix_permitted.
Qed.

Lemma assemble_closed s :
  mInFile (this s) = None ->
  assemble host s =
    mkResult false s [EvCerr ("Missing input file." ++ endl)].
Proof.
  intros H. unfold assemble. run_unfold. cbn. now rewrite H.
Qed.

Lemma assemble_permitted s :
  Forall (permitted (out (this s))) (events (assemble host s)).
Proof.
  destruct (mInFile (this s)) as [text|] eqn:Hin.
  - rewrite (assemble_eq host s text Hin). cbn zeta.
    pose proof (tryHalManifest_permitted text (after_read s)) as H1.
    pose proof (tryHalManifest_out text (after_read s)) as Ho.
    set (r1 := tryHalManifest host text (after_read s)) in *.
    pose proof (tryCompatibilityMatrix_permitted text (final r1)) as H2.
    rewrite Ho in H2.
    set (r2 := tryCompatibilityMatrix host text (final r1)) in *.
    change (out (this (after_read s))) with (out (this s)) in H1, H2.
    destruct (value r1); cbn.
    + constructor; [constructor|exact H1].
    + destruct (value r2); cbn.
      * constructor; [constructor|]. apply Forall_app. now split.
      * constructor; [constructor|]. apply Forall_app. split; [exact H1|].
        apply Forall_app. split; [exact H2|]. repeat constructor.
  - rewrite (assemble_closed s Hin). repeat constructor.
Qed.

Lemma main_permitted opts :
  Forall (permitted (out_stream host opts)) (events (main host opts)).
Proof.
  rewrite main_cases.
  pose proof (cerr_only_permitted (out_stream host opts) _
                (option_loop_cerr host opts "" initial_state)) as Hc.
  fold (configure host opts) in Hc.
  destruct (value (configure host opts)); cbn; [exact Hc|].
  apply Forall_app. split; [exact Hc|]. apply assemble_permitted.
Qed.

(** Property X9.  Whatever a run writes or flushes, it does so on one
    stream: the one the options select. *)
Theorem writes_go_to_one_stream opts e :
  In e (events (main host opts)) ->
  on_stream (out_stream host opts) e.
Proof.
  intros Hin. pose proof (main_permitted opts) as H.
  rewrite Forall_forall in H. destruct (H e Hin); cbn; trivial.
Qed.

(** Property X10.  The only environment variables a run looks up are
    [BOARD_SEPOLICY_VERS] and [POLICYVERS]. *)
Theorem only_two_variables_looked_up opts key :
  In (EvGetenv key) (events (main host opts)) ->
  key = "BOARD_SEPOLICY_VERS" \/ key = "POLICYVERS".
Proof.
  intros Hin. pose proof (main_permitted opts) as H.
  rewrite Forall_forall in H. specialize (H _ Hin).
  inversion H; auto.
Qed.


(** *** The environment *)

Lemma option_loop_with_getenv env opts path s :
  option_loop (with_getenv env host) opts path s =
  option_loop host opts path s.
Proof.
  revert path s. induction opts as [|o opts IH]; intros path s;
    [reflexivity|].
  destruct o; cbn [option_loop];
    unfold openInFile, openOutFile, openCheckFile, setOutputMatrix;
    run_unfold; cbn [with_getenv readable writable];
    repeat rewrite IH; reflexivity.
Qed.

Lemma assemble_with_getenv env :
  env "BOARD_SEPOLICY_VERS" = getenv host "BOARD_SEPOLICY_VERS" ->
  env "POLICYVERS" = getenv host "POLICYVERS" ->
  assemble (with_getenv env host) = assemble host.
Proof.
  intros Hb Hp.
  unfold assemble, assembleHalManifest, assembleCompatibilityMatrix, getFlag,
    call_getenv.
  cbn [with_getenv getenv]. now rewrite Hb, Hp.
Qed.

(** Property X11.  What the tool does with the results of
    [getopt_long] depends on the environment through
    [BOARD_SEPOLICY_VERS] and [POLICYVERS] only: for one and the same
    list of results, two environments that agree on these two variables
    give the same exit code, the same final state and the same events.
    Which results [getopt_long] returns for the arguments of the process
    is the C library's matter and is not covered. *)
Theorem run_depends_on_two_variables env opts :
  env "BOARD_SEPOLICY_VERS" = getenv host "BOARD_SEPOLICY_VERS" ->
  env "POLICYVERS" = getenv host "POLICYVERS" ->
  main (with_getenv env host) opts = main host opts.
Proof.
  intros Hb Hp. unfold main, main_body. run_unfold.
  rewrite option_loop_with_getenv, (assemble_with_getenv env Hb Hp).
  reflexivity.
Qed.

(** *** Success and failure *)

Lemma checkHalManifest_true hm error s :
  value (checkHalManifest hm error s) = true ->
  events (checkHalManifest hm error s) = [] \/
  events (checkHalManifest hm error s) = [EvRead CheckFile].
Proof.
  destruct (mCheckFile (this s)) as [ref|] eqn:Hc.
  - rewrite (checkHalManifest_open hm error s ref Hc).
    destruct (deserialize ref) as [e|cm]; [discriminate|]. cbn zeta.
    destruct (fst (checkCompatibility hm cm error)); [now right|discriminate].
  - rewrite (checkHalManifest_closed hm error s Hc). now left.
Qed.

Lemma checkCompatibilityMatrix_true cm s :
  value (checkCompatibilityMatrix cm s) = true ->
  events (checkCompatibilityMatrix cm s) = [] \/
  events (checkCompatibilityMatrix cm s) = [EvRead CheckFile].
Proof.
  destruct (mCheckFile (this s)) as [ref|] eqn:Hc.
  - rewrite (checkCompatibilityMatrix_open cm s ref Hc).
    destruct (deserialize ref) as [e|hm]; [discriminate|]. cbn zeta.
    destruct (fst (checkCompatibility hm cm "")); [now right|discriminate].
  - rewrite (checkCompatibilityMatrix_closed cm s Hc). now left.
Qed.

Lemma ends_flushed_app o l evs :
  ends_flushed o evs -> ends_flushed o (l ++ evs).
Proof.
  intros (before & text & after & -> & Ha).
  exists (l ++ before)%list, text, after. split; [|exact Ha].
  now rewrite <- app_assoc.
Qed.

Lemma assembleHalManifest_ends_flushed hm s :
  fst (value (assembleHalManifest host hm s)) = true ->
  ends_flushed (out (this s)) (events (assembleHalManifest host hm s)).
Proof.
  rewrite assembleHalManifest_eq. cbn zeta.
  destruct (value (injectHalManifest host hm s)) as [hm'|]; cbn;
    [|discriminate].
  intros Hok.
  destruct (emitHalManifest_events hm' s) as (pre & text & -> & _).
  apply (ends_flushed_app _ [_]). apply ends_flushed_app.
  exists pre, text, (events (checkHalManifest hm'
                               (value (emitHalManifest hm' s)) s)).
  split; [now rewrite <- app_assoc|].
  now apply checkHalManifest_true.
Qed.

Lemma assembleCompatibilityMatrix_ends_flushed cm s :
  fst (value (assembleCompatibilityMatrix host cm s)) = true ->
  ends_flushed (out (this s)) (events (assembleCompatibilityMatrix host cm s)).
Proof.
  rewrite assembleCompatibilityMatrix_eq. cbn zeta.
  destruct (value (injectCompatibilityMatrix host cm s)) as [cm'|]; cbn;
    [|discriminate].
  intros Hok.
  apply (ends_flushed_app _ [_]). apply ends_flushed_app.
  exists [], (serialize (XmlConverter := gCompatibilityMatrixConverter) cm'),
    (events (checkCompatibilityMatrix cm' s)).
  split; [reflexivity|]. now apply checkCompatibilityMatrix_true.
Qed.

Lemma tryHalManifest_ends_flushed text s :
  value (tryHalManifest host text s) = true ->
  ends_flushed (out (this s)) (events (tryHalManifest host text s)).
Proof.
  destruct (deserialize (XmlConverter := gHalManifestConverter) text)
    as [e|hm] eqn:H.
  - rewrite (tryHalManifest_inl host text e s H). discriminate.
  - rewrite (tryHalManifest_inr host text hm s H).
    apply assembleHalManifest_ends_flushed.
Qed.

Lemma tryCompatibilityMatrix_ends_flushed text s :
  value (tryCompatibilityMatrix host text s) = true ->
  ends_flushed (out (this s)) (events (tryCompatibilityMatrix host text s)).
Proof.
  destruct (deserialize (XmlConverter := gCompatibilityMatrixConverter) text)
    as [e|cm] eqn:H.
  - rewrite (tryCompatibilityMatrix_inl host text e s H). discriminate.
  - rewrite (tryCompatibilityMatrix_inr host text cm s H).
    apply assembleCompatibilityMatrix_ends_flushed.
Qed.

(** Property X12.  A run that exits 0 has written a document and flushed
    the output stream, and after that flush it has at most read the check
    file: it never succeeds without output, and nothing is logged to the
    error stream after the last write. *)
Theorem exit_0_means_written_and_flushed opts :
  value (main host opts) = 0%Z ->
  exists before text after,
    events (main host opts) =
      (before ++
       [EvOut (out_stream host opts) text; EvFlush (out_stream host opts)] ++
       after)%list /\
    (after = [] \/ after = [EvRead CheckFile]).
Proof.
  rewrite main_cases.
  destruct (value (configure host opts)) as [code|] eqn:Hcfg; cbn.
  - destruct (option_loop_return opts "" initial_state code Hcfg) as [-> _].
    discriminate.
  - destruct (mInFile (this (configured host opts))) as [text|] eqn:Hin.
    + rewrite (assemble_eq host _ text Hin). cbn zeta.
      pose proof (tryHalManifest_ends_flushed text
                    (after_read (configured host opts))) as H1.
      pose proof (tryHalManifest_out text
                    (after_read (configured host opts))) as Ho.
      set (r1 := tryHalManifest host text (after_read (configured host opts)))
        in *.
      pose proof (tryCompatibilityMatrix_ends_flushed text (final r1)) as H2.
      rewrite Ho in H2.
      set (r2 := tryCompatibilityMatrix host text (final r1)) in *.
      change (out (this (after_read (configured host opts))))
        with (out_stream host opts) in H1, H2.
      destruct (value r1); cbn.
      * intros _. apply ends_flushed_app. apply (ends_flushed_app _ [_]).
        now apply H1.
      * destruct (value r2); cbn; [|discriminate].
        intros _. apply ends_flushed_app. apply (ends_flushed_app _ [_]).
        apply ends_flushed_app. now apply H2.
    + rewrite (assemble_closed _ Hin). discriminate.
Qed.

(** Property X13.  A run that exits 1 ends with a diagnostic on the error
    stream; when it has read its input, that diagnostic is the one for an
    unknown format, with the last errors of the two converters, also when
    the input did parse and it is the assembly that failed. *)
Theorem exit_1_ends_with_diagnostic opts :
  value (main host opts) = 1%Z ->
  let r := main host opts in
  (exists before d, events r = (before ++ [EvCerr d])%list) /\
  (forall text,
     run_reads host opts text ->
     exists before,
       events r =
         (before ++
          [EvCerr (msg_unknown_format (manifestLastError (final r))
                     (matrixLastError (final r)))])%list).
Proof.
  intros Hexit r. subst r. revert Hexit. rewrite main_cases.
  destruct (value (configure host opts)) as [code|] eqn:Hcfg; cbn.
  - intros _.
    destruct (option_loop_return opts "" initial_state code Hcfg)
      as (_ & before & d & Hev).
    split; [now exists before, d|].
    intros text [Hnone _]. congruence.
  - destruct (mInFile (this (configured host opts))) as [text|] eqn:Hin.
    + rewrite (assemble_eq host _ text Hin). cbn zeta.
      set (r1 := tryHalManifest host text (after_read (configured host opts))).
      set (r2 := tryCompatibilityMatrix host text (final r1)).
      destruct (value r1); cbn; [discriminate|].
      destruct (value r2); cbn; [discriminate|].
      intros _. split.
      * eexists. eexists.
        rewrite !app_comm_cons, !app_assoc. reflexivity.
      * intros text' _. eexists.
        rewrite !app_comm_cons, !app_assoc. reflexivity.
    + rewrite (assemble_closed _ Hin). cbn. intros _. split.
      * now eexists _, _.
      * intros text [_ Ht]. congruence.
Qed.


(** *** [-m] *)

Lemma option_loop_with_mOutputMatrix opts path s :
  option_loop host opts path (with_mOutputMatrix true s) =
    let r := option_loop host opts path s in
    mkResult (value r) (with_mOutputMatrix true (final r)) (events r).
Proof.
  revert path s. induction opts as [|o opts IH]; intros path s;
    [reflexivity|].
  assert (Hrec : forall p st,
             option_loop host opts p (with_mOutputMatrix true st) =
             mkResult (value (option_loop host opts p st))
               (with_mOutputMatrix true (final (option_loop host opts p st)))
               (events (option_loop host opts p st))) by exact IH.
  clear IH. destruct s as [[fi fo fc fm] e1 e2].
  destruct o.
  - rewrite !option_loop_i.
    cbn [this mInFile mOutFileRef mCheckFile mOutputMatrix manifestLastError
           matrixLastError with_mOutputMatrix].
    destruct fi; [exact (Hrec _ (mkState (mkAssembleVintf _ _ _ fm) _ _))|].
    destruct (readable host optarg);
      [exact (Hrec _ (mkState (mkAssembleVintf _ _ _ fm) _ _))|reflexivity].
  - rewrite !option_loop_o.
    cbn [this mInFile mOutFileRef mCheckFile mOutputMatrix manifestLastError
           matrixLastError with_mOutputMatrix].
    destruct (writable host optarg);
      [exact (Hrec _ (mkState (mkAssembleVintf _ _ _ fm) _ _))|reflexivity].
  - rewrite !option_loop_m.
    exact (Hrec _ (with_mOutputMatrix true
                     (mkState (mkAssembleVintf fi fo fc fm) e1 e2))).
  - destruct (String.length optarg =? 0)%nat eqn:E.
    + rewrite !(option_loop_c_empty _ _ _ _ E). cbn zeta.
      now rewrite Hrec.
    + rewrite !(option_loop_c _ _ _ _ E).
      cbn [this mInFile mOutFileRef mCheckFile mOutputMatrix manifestLastError
             matrixLastError with_mOutputMatrix].
      destruct fc; [exact (Hrec _ (mkState (mkAssembleVintf _ _ _ fm) _ _))|].
      destruct (readable host optarg);
        [exact (Hrec _ (mkState (mkAssembleVintf _ _ _ fm) _ _))|reflexivity].
  - reflexivity.
  - reflexivity.
Qed.

Lemma assembleCompatibilityMatrix_with_mOutputMatrix b cm s :
  assembleCompatibilityMatrix host cm (with_mOutputMatrix b s) =
    let r := assembleCompatibilityMatrix host cm s in
    mkResult (value r) (with_mOutputMatrix b (final r)) (events r).
Proof.
  unfold assembleCompatibilityMatrix, getFlag, convertHalManifest, read.
  run_unfold. split_cases.
Qed.

Lemma tryCompatibilityMatrix_with_mOutputMatrix b text s :
  tryCompatibilityMatrix host text (with_mOutputMatrix b s) =
    let r := tryCompatibilityMatrix host text s in
    mkResult (value r) (with_mOutputMatrix b (final r)) (events r).
Proof.
  destruct (deserialize (XmlConverter := gCompatibilityMatrixConverter) text)
    as [e|cm] eqn:H.
  - now rewrite !(tryCompatibilityMatrix_inl host text e _ H).
  - rewrite !(tryCompatibilityMatrix_inr host text cm _ H). cbn zeta.
    now rewrite assembleCompatibilityMatrix_with_mOutputMatrix.
Qed.

Lemma assemble_with_mOutputMatrix b s text e :
  mInFile (this s) = Some text ->
  deserialize (XmlConverter := gHalManifestConverter) text = inl e ->
  assemble host (with_mOutputMatrix b s) =
    let r := assemble host s in
    mkResult (value r) (with_mOutputMatrix b (final r)) (events r).
Proof.
  intros Hin He.
  rewrite (assemble_eq host (with_mOutputMatrix b s) text Hin),
    (assemble_eq host s text Hin). cbn zeta.
  rewrite !(tryHalManifest_inl host text e _ He). cbn [value final events].
  change (mkState (this (after_read (with_mOutputMatrix b s))) e
            (matrixLastError (after_read (with_mOutputMatrix b s))))
    with (with_mOutputMatrix b
            (mkState (this (after_read s)) e (matrixLastError (after_read s)))).
  rewrite tryCompatibilityMatrix_with_mOutputMatrix. cbn zeta.
  cbn [value final events].
  set (r2 := tryCompatibilityMatrix host text _).
  destruct (value r2); reflexivity.
Qed.

(** Property X14.  [-m] is ignored when the input is not a manifest:
    for an input that does not parse as a manifest, a command line with
    [-m] gives the exit code and the events of the command line without
    it, and the same final state but for the flag itself. *)
Theorem m_is_ignored_unless_input_is_a_manifest pre post text e :
  run_reads host (pre ++ post) text ->
  deserialize (XmlConverter := gHalManifestConverter) text = inl e ->
  let r := main host (pre ++ Opt_m :: post) in
  let r' := main host (pre ++ post) in
  value r = value r' /\
  events r = events r' /\
  final r = with_mOutputMatrix true (final r').
Proof.
  intros [Hnone Hin] He r r'. subst r r'.
  assert (Hpre : value (configure host pre) = None).
  { revert Hnone. unfold configure. rewrite option_loop_app. cbn zeta.
    destruct (option_loop host pre "" initial_state) as [[c|] s1 evs1]; cbn;
      auto. }
  assert (Hcfg : configure host (pre ++ Opt_m :: post) =
                 mkResult None
                   (with_mOutputMatrix true (configured host (pre ++ post)))
                   (events (configure host (pre ++ post)))).
  { unfold configured. rewrite !(configure_app pre _ Hpre). cbn zeta.
    rewrite option_loop_m, option_loop_with_mOutputMatrix. cbn zeta.
    cbn [value final events].
    rewrite (configure_app pre _ Hpre) in Hnone. cbn zeta in Hnone.
    cbn [value] in Hnone. now rewrite Hnone. }
  assert (Hcfd : configured host (pre ++ Opt_m :: post) =
                 with_mOutputMatrix true (configured host (pre ++ post))).
  { unfold configured at 1. now rewrite Hcfg. }
  rewrite !main_cases, Hcfd, Hcfg, Hnone.
  cbn [value final events].
  rewrite (assemble_with_mOutputMatrix true _ text e Hin He).
  cbn zeta. cbn [value final events]. repeat split.
Qed.

(** *** The check file *)

Lemma checkHalManifest_drains hm error s ref :
  mCheckFile (this s) = Some ref ->
  mCheckFile (this (final (checkHalManifest hm error s))) = Some "".
Proof.
  intros Hc. rewrite (checkHalManifest_open hm error s ref Hc).
  unfold after_check_read, read.
  destruct (deserialize ref) as [e|cm]; cbn; [now rewrite Hc|].
  destruct (fst (checkCompatibility hm cm error)); cbn; now rewrite Hc.
Qed.

Lemma getenv_only_written (evs : list event) key :
  (forall e, In e evs -> e = EvGetenv key) -> written evs = "".
Proof.
  induction evs as [|e evs IH]; intros H; [reflexivity|].
  rewrite (H e (in_eq _ _)). cbn. apply IH.
  intros e' Hin. apply H. now right.
Qed.

Lemma flags_only_written (evs : list event) :
  (forall e, In e evs ->
             e = EvGetenv "BOARD_SEPOLICY_VERS" \/ e = EvGetenv "POLICYVERS") ->
  written evs = "".
Proof.
  induction evs as [|e evs IH]; intros H; [reflexivity|].
  destruct (H e (in_eq _ _)) as [->| ->]; cbn; apply IH;
    intros e' Hin; apply H; now right.
Qed.

(** The manifest attempt on a manifest whose injection succeeds, in a
    state with an open check file. *)
Lemma tryHalManifest_checked text hm hm' s ref :
  deserialize (XmlConverter := gHalManifestConverter) text = inr hm ->
  manifest_injection host hm hm' ->
  mCheckFile (this s) = Some ref ->
  let r1 := tryHalManifest host text s in
  mCheckFile (this (final r1)) = Some "" /\
  written (events r1) = manifest_output (mOutputMatrix (this s)) hm'.
Proof.
  intros Hhm Hinj Hc. cbn zeta.
  rewrite (tryHalManifest_inr host text hm s Hhm), assembleHalManifest_eq.
  cbn zeta.
  destruct (injectHalManifest_ok host hm hm' s Hinj) as [-> Hev].
  destruct (emitHalManifest_summary hm' s) as (_ & _ & Hw & _).
  cbn zeta in Hw. cbn [value final events]. split.
  - now apply (checkHalManifest_drains _ _ _ ref).
  - cbn [written]. rewrite !written_app, Hw.
    rewrite (getenv_only_written _ _ Hev).
    rewrite (check_events_written _ (checkHalManifest_events _ _ _)).
    cbn. now rewrite append_nil_r.
Qed.

(** The matrix attempt on a matrix whose injection succeeds, in a state
    whose check file is at its end. *)
Lemma tryCompatibilityMatrix_drained text cm cm' s :
  deserialize (XmlConverter := gCompatibilityMatrixConverter) text = inr cm ->
  matrix_injection host cm cm' ->
  mCheckFile (this s) = Some "" ->
  let r2 := tryCompatibilityMatrix host text s in
  value r2 =
    match deserialize (XmlConverter := gHalManifestConverter) "" with
    | inl _ => false
    | inr empty => fst (checkCompatibility empty cm' "")
    end /\
  written (events r2) =
    serialize (XmlConverter := gCompatibilityMatrixConverter) cm'.
Proof.
  intros Hcm Hinj Hc. cbn zeta.
  rewrite (tryCompatibilityMatrix_inr host text cm s Hcm),
    assembleCompatibilityMatrix_eq. cbn zeta.
  destruct (injectCompatibilityMatrix_ok host cm cm' s Hinj) as [-> Hev].
  cbn [value final events fst]. split.
  - rewrite (checkCompatibilityMatrix_open cm' s "" Hc).
    destruct (deserialize (XmlConverter := gHalManifestConverter) "")
      as [e|empty]; [reflexivity|].
    cbn zeta. now destruct (fst (checkCompatibility empty cm' "")).
  - cbn [written]. rewrite !written_app.
    rewrite (flags_only_written _ Hev).
    rewrite (check_events_written _ (checkCompatibilityMatrix_events _ _)).
    cbn. now rewrite !append_nil_r.
Qed.

(** Property X15.  The check file is read once per run.  When the input
    is a manifest whose injection succeeds and a check file is open, the
    manifest attempt leaves that file at its end, whatever the verdict.
    If the attempt fails and the input also parses as a matrix whose
    injection succeeds, the matrix attempt takes the empty text as its
    reference: the exit code is the verdict on the empty text, and the
    output holds both documents, the manifest's followed by the
    matrix's. *)
Theorem check_file_is_read_once opts text hm hm' ref :
  run_reads host opts text ->
  check_file host opts = Some ref ->
  deserialize (XmlConverter := gHalManifestConverter) text = inr hm ->
  manifest_injection host hm hm' ->
  let r1 := tryHalManifest host text (after_read (configured host opts)) in
  let r := main host opts in
  mCheckFile (this (final r1)) = Some "" /\
  (forall cm cm',
     value r1 = false ->
     deserialize (XmlConverter := gCompatibilityMatrixConverter) text =
       inr cm ->
     matrix_injection host cm cm' ->
     value r =
       exit_code
         match deserialize (XmlConverter := gHalManifestConverter) "" with
         | inl _ => false
         | inr empty => fst (checkCompatibility empty cm' "")
         end /\
     written (events r) =
       manifest_output (existsb is_Opt_m opts) hm' ++
       serialize (XmlConverter := gCompatibilityMatrixConverter) cm').
Proof.
  intros Hrun Hc Hhm Hinj r1 r. subst r.
  assert (Hc1 : mCheckFile (this (after_read (configured host opts))) =
                Some ref) by exact Hc.
  assert (Hm : mOutputMatrix (this (after_read (configured host opts))) =
               existsb is_Opt_m opts).
  { destruct Hrun as [Hnone _]. exact (configured_mOutputMatrix host opts Hnone). }
  destruct (tryHalManifest_checked text hm hm' _ ref Hhm Hinj Hc1)
    as [Hdrained Hw1].
  fold r1 in Hdrained, Hw1. rewrite Hm in Hw1.
  split; [exact Hdrained|].
  intros cm cm' Hfail Hcm Hinj2.
  destruct (tryCompatibilityMatrix_drained text cm cm' (final r1)
              Hcm Hinj2 Hdrained) as [Hv2 Hw2].
  destruct (main_second_attempt host opts text Hrun Hfail)
    as (rest & Hev & Hrest & Hval & _).
  fold r1 in Hev, Hval. split.
  - now rewrite Hval, Hv2.
  - rewrite Hev, written_app. cbn [written]. rewrite !written_app.
    rewrite (configure_written host opts), Hw1, Hw2.
    rewrite (cerr_only_written _ Hrest). cbn. now rewrite append_nil_r.
Qed.

(** *** The order of the lookups *)

Lemma check_events_no_env evs key :
  check_events evs -> ~ In (EvGetenv key) evs.
Proof.
  intros [->|(tail & -> & Ht)] Hin; [destruct Hin|].
  destruct Hin as [Hin|Hin]; [discriminate|].
  apply (cerr_only_In _ _ Ht) in Hin. discriminate.
Qed.

Lemma getFlag_getenv {T} (parse : string -> option T) key key' s :
  In (EvGetenv key') (events (getFlag host parse key s)) -> key' = key.
Proof.
  destruct (getFlag_shape host parse key s) as (_ & tail & -> & Ht).
  intros [H|H]; [now injection H|].
  apply (cerr_only_In _ _ Ht) in H. discriminate.
Qed.

Lemma injectHalManifest_getenv hm key s :
  In (EvGetenv key) (events (injectHalManifest host hm s)) ->
  key = "BOARD_SEPOLICY_VERS".
Proof.
  unfold injectHalManifest.
  destruct (HalManifest.mType hm); [|intros []].
  run_unfold. cbn. rewrite app_nil_r. apply getFlag_getenv.
Qed.

Lemma tryHalManifest_getenv text key s :
  In (EvGetenv key) (events (tryHalManifest host text s)) ->
  key = "BOARD_SEPOLICY_VERS".
Proof.
  destruct (deserialize (XmlConverter := gHalManifestConverter) text)
    as [e|hm] eqn:H.
  - rewrite (tryHalManifest_inl host text e s H). intros [].
  - rewrite (tryHalManifest_inr host text hm s H), assembleHalManifest_eq.
    cbn zeta.
    pose proof (injectHalManifest_getenv hm key s) as Hi.
    destruct (value (injectHalManifest host hm s)) as [hm'|];
      cbn [events]; (intros [Hin|Hin]; [discriminate|]); [|now apply Hi].
    apply in_app_or in Hin. destruct Hin as [Hin|Hin]; [now apply Hi|].
    apply in_app_or in Hin. destruct Hin as [Hin|Hin].
    + destruct (emitHalManifest_summary hm' s) as (_ & _ & _ & Hno).
      now apply Hno in Hin.
    + now apply (check_events_no_env _ _ (checkHalManifest_events _ _ _))
        in Hin.
Qed.

(** A lookup of [POLICYVERS] in the matrix attempt: the matrix is a
    framework one and [BOARD_SEPOLICY_VERS] has been obtained. *)
Lemma tryCompatibilityMatrix_POLICYVERS text s :
  In (EvGetenv "POLICYVERS") (events (tryCompatibilityMatrix host text s)) ->
  exists cm raw v,
    deserialize (XmlConverter := gCompatibilityMatrixConverter) text =
      inr cm /\
    CompatibilityMatrix.mType cm = FRAMEWORK /\
    getenv host "BOARD_SEPOLICY_VERS" = Some raw /\
    parse_Version raw = Some v.
Proof.
  destruct (deserialize (XmlConverter := gCompatibilityMatrixConverter) text)
    as [e|cm] eqn:H.
  - rewrite (tryCompatibilityMatrix_inl host text e s H). intros [].
  - rewrite (tryCompatibilityMatrix_inr host text cm s H),
      assembleCompatibilityMatrix_eq. cbn zeta.
    assert (Hi : In (EvGetenv "POLICYVERS")
                   (events (injectCompatibilityMatrix host cm s)) ->
                 exists raw v,
                   CompatibilityMatrix.mType cm = FRAMEWORK /\
                   getenv host "BOARD_SEPOLICY_VERS" = Some raw /\
                   parse_Version raw = Some v).
    { unfold injectCompatibilityMatrix.
      destruct (CompatibilityMatrix.mType cm); [intros []|].
      run_unfold. cbn.
      destruct (getenv host "BOARD_SEPOLICY_VERS") as [raw|] eqn:Hraw.
      - destruct (parse_Version raw) as [v|] eqn:Hv.
        + intros _. now exists raw, v.
        + rewrite (getFlag_unparseable host _ _ _ s Hraw Hv). cbn.
          intros [Hin|[Hin|[]]]; discriminate.
      - rewrite (getFlag_absent host _ _ s Hraw). cbn.
        intros [Hin|[Hin|[]]]; discriminate. }
    assert (Hi' : In (EvGetenv "POLICYVERS")
                    (events (injectCompatibilityMatrix host cm s)) ->
                  exists cm0 raw v,
                    @inr string CompatibilityMatrix cm = inr cm0 /\
                    CompatibilityMatrix.mType cm0 = FRAMEWORK /\
                    getenv host "BOARD_SEPOLICY_VERS" = Some raw /\
                    parse_Version raw = Some v).
    { intros Hin. destruct (Hi Hin) as (raw & v & Ht & Hraw & Hv).
      now exists cm, raw, v. }
    clear Hi.
    destruct (value (injectCompatibilityMatrix host cm s)) as [cm'|];
      cbn [events]; (intros [Hin|Hin]; [discriminate|]); [|now apply Hi'].
    apply in_app_or in Hin. destruct Hin as [Hin|Hin]; [now apply Hi'|].
    destruct Hin as [Hin|[Hin|Hin]]; try discriminate.
    now apply (check_events_no_env _ _ (checkCompatibilityMatrix_events _ _))
      in Hin.
Qed.

(** Property X16.  [POLICYVERS] is looked up only for an input that
    parses as a framework matrix, and only once [BOARD_SEPOLICY_VERS] has
    been found in the environment and parsed as a version. *)
Theorem POLICYVERS_is_looked_up_last opts :
  In (EvGetenv "POLICYVERS") (events (main host opts)) ->
  exists text cm raw v,
    run_reads host opts text /\
    deserialize (XmlConverter := gCompatibilityMatrixConverter) text =
      inr cm /\
    CompatibilityMatrix.mType cm = FRAMEWORK /\
    getenv host "BOARD_SEPOLICY_VERS" = Some raw /\
    parse_Version raw = Some v.
Proof.
  rewrite main_cases.
  destruct (value (configure host opts)) as [code|] eqn:Hcfg; cbn [events].
  - intros Hin. apply (cerr_only_In _ _ (option_loop_cerr host _ _ _)) in Hin.
    discriminate.
  - cbn zeta. cbn [events]. intros Hin. apply in_app_or in Hin.
    destruct Hin as [Hin|Hin].
    { apply (cerr_only_In _ _ (option_loop_cerr host _ _ _)) in Hin.
      discriminate. }
    destruct (mInFile (this (configured host opts))) as [text|] eqn:Hopen.
    + revert Hin. rewrite (assemble_eq host _ text Hopen). cbn zeta.
      set (r1 := tryHalManifest host text (after_read (configured host opts))).
      set (r2 := tryCompatibilityMatrix host text (final r1)).
      assert (H1 : ~ In (EvGetenv "POLICYVERS") (events r1)).
      { intros Hin. apply tryHalManifest_getenv in Hin. discriminate. }
      assert (H2 : In (EvGetenv "POLICYVERS") (events r2) ->
                   exists text cm raw v,
                     run_reads host opts text /\
                     deserialize
                       (XmlConverter := gCompatibilityMatrixConverter) text =
                       inr cm /\
                     CompatibilityMatrix.mType cm = FRAMEWORK /\
                     getenv host "BOARD_SEPOLICY_VERS" = Some raw /\
                     parse_Version raw = Some v).
      { intros Hin.
        destruct (tryCompatibilityMatrix_POLICYVERS _ _ Hin)
          as (cm & raw & v & Hcm & Ht & Hraw & Hv).
        exists text, cm, raw, v. repeat split; assumption. }
      destruct (value r1); cbn [events].
      * intros [Hin|Hin]; [discriminate|]. now apply H1 in Hin.
      * destruct (value r2); cbn [events];
          (intros [Hin|Hin]; [discriminate|]);
          apply in_app_or in Hin; destruct Hin as [Hin|Hin];
          try (now apply H1 in Hin); try (now apply H2).
        apply in_app_or in Hin. destruct Hin as [Hin|Hin]; [now apply H2|].
        destruct Hin as [Hin|[]]. discriminate.
    + revert Hin. rewrite (assemble_closed _ Hopen). cbn.
      intros [Hin|[]]. discriminate.
Qed.


(** *** The place of [-m] on the command line *)

Lemma option_loop_insert_m pre post path s :
  let r := option_loop host (pre ++ Opt_m :: post) path s in
  let r' := option_loop host (pre ++ post) path (with_mOutputMatrix true s) in
  value r = value r' /\
  events r = events r' /\
  (value r = None -> final r = final r').
Proof.
  cbn zeta. rewrite !option_loop_app. cbn zeta.
  rewrite option_loop_with_mOutputMatrix. cbn zeta. cbn [value final events].
  rewrite option_loop_m.
  destruct (option_loop host pre path s) as [[code|] s1 evs1];
    cbn [value final events].
  - repeat split. discriminate.
  - repeat split.
Qed.

(** Property X17.  [-m] may stand anywhere on the command line: moving
    it to the front changes neither the exit code nor the events of the
    run. *)
Theorem m_may_stand_anywhere pre post :
  let r := main host (pre ++ Opt_m :: post) in
  let r' := main host (Opt_m :: pre ++ post) in
  value r = value r' /\ events r = events r'.
Proof.
  cbn zeta. rewrite !main_cases. unfold configured, configure.
  destruct (option_loop_insert_m pre post "" initial_state)
    as (Hv & Hev & Hfin).
  rewrite (option_loop_m (pre ++ post) "" initial_state).
  rewrite Hev. rewrite Hv in Hfin |- *.
  destruct (value (option_loop host (pre ++ post) ""
                     (with_mOutputMatrix true initial_state))).
  - split; reflexivity.
  - cbn zeta. cbn [value events]. rewrite (Hfin eq_refl). split; reflexivity.
Qed.

(** *** Runs without a check file *)

Lemma tryHalManifest_unchecked text s :
  mCheckFile (this s) = None ->
  let r1 := tryHalManifest host text s in
  mCheckFile (this (final r1)) = None /\ no_check_read (events r1).
Proof.
  intros Hc. cbn zeta.
  destruct (deserialize (XmlConverter := gHalManifestConverter) text)
    as [e|hm] eqn:H.
  - rewrite (tryHalManifest_inl host text e s H). split; [exact Hc|intros []].
  - rewrite (tryHalManifest_inr host text hm s H), assembleHalManifest_eq.
    cbn zeta.
    destruct (injectHalManifest_shape host hm s) as [_ Hi].
    assert (Hni : no_check_read (events (injectHalManifest host hm s))).
    { intros Hin. rewrite forallb_forall in Hi. apply Hi in Hin.
      discriminate. }
    destruct (value (injectHalManifest host hm s)) as [hm'|];
      cbn [value final events].
    + rewrite (checkHalManifest_closed hm' _ s Hc). cbn [final events].
      split; [exact Hc|]. rewrite app_nil_r.
      intros [Hin|Hin]; [discriminate|].
      apply in_app_or in Hin. destruct Hin as [Hin|Hin]; [now apply Hni|].
      destruct (emitHalManifest_events hm' s) as (pre & t & Hev & Hnc & _).
      rewrite Hev in Hin. apply in_app_or in Hin.
      destruct Hin as [Hin|[Hin|[Hin|[]]]]; try discriminate.
      now apply Hnc.
    + split; [exact Hc|]. intros [Hin|Hin]; [discriminate|]. now apply Hni.
Qed.

Lemma tryCompatibilityMatrix_unchecked text s :
  mCheckFile (this s) = None ->
  no_check_read (events (tryCompatibilityMatrix host text s)).
Proof.
  intros Hc.
  destruct (deserialize (XmlConverter := gCompatibilityMatrixConverter) text)
    as [e|cm] eqn:H.
  - rewrite (tryCompatibilityMatrix_inl host text e s H). intros [].
  - rewrite (tryCompatibilityMatrix_inr host text cm s H),
      assembleCompatibilityMatrix_eq. cbn zeta.
    destruct (injectCompatibilityMatrix_shape host cm s) as [_ Hi].
    assert (Hni : no_check_read (events (injectCompatibilityMatrix host cm s))).
    { intros Hin. rewrite forallb_forall in Hi. apply Hi in Hin.
      discriminate. }
    destruct (value (injectCompatibilityMatrix host cm s)) as [cm'|];
      cbn [value final events].
    + rewrite (checkCompatibilityMatrix_closed cm' s Hc). cbn [final events].
      intros [Hin|Hin]; [discriminate|].
      apply in_app_or in Hin. destruct Hin as [Hin|Hin]; [now apply Hni|].
      destruct Hin as [Hin|[Hin|[]]]; discriminate.
    + intros [Hin|Hin]; [discriminate|]. now apply Hni.
Qed.

Lemma tryHalManifest_unchecked_out text s o t :
  mCheckFile (this s) = None ->
  In (EvOut o t) (events (tryHalManifest host text s)) ->
  value (tryHalManifest host text s) = true.
Proof.
  intros Hc.
  destruct (deserialize (XmlConverter := gHalManifestConverter) text)
    as [e|hm] eqn:H.
  - rewrite (tryHalManifest_inl host text e s H). intros [].
  - rewrite (tryHalManifest_inr host text hm s H), assembleHalManifest_eq.
    cbn zeta.
    destruct (injectHalManifest_shape host hm s) as [_ Hi].
    apply env_or_cerr_silent in Hi.
    destruct (value (injectHalManifest host hm s)) as [hm'|];
      cbn [value final events fst].
    + intros _. now rewrite (checkHalManifest_closed hm' _ s Hc).
    + intros [Hin|Hin]; [discriminate|]. now apply Hi in Hin.
Qed.

Lemma tryCompatibilityMatrix_unchecked_out text s o t :
  mCheckFile (this s) = None ->
  In (EvOut o t) (events (tryCompatibilityMatrix host text s)) ->
  value (tryCompatibilityMatrix host text s) = true.
Proof.
  intros Hc.
  destruct (deserialize (XmlConverter := gCompatibilityMatrixConverter) text)
    as [e|cm] eqn:H.
  - rewrite (tryCompatibilityMatrix_inl host text e s H). intros [].
  - rewrite (tryCompatibilityMatrix_inr host text cm s H),
      assembleCompatibilityMatrix_eq. cbn zeta.
    destruct (injectCompatibilityMatrix_shape host cm s) as [_ Hi].
    apply env_or_cerr_silent in Hi.
    destruct (value (injectCompatibilityMatrix host cm s)) as [cm'|];
      cbn [value final events fst].
    + intros _. now rewrite (checkCompatibilityMatrix_closed cm' s Hc).
    + intros [Hin|Hin]; [discriminate|]. now apply Hi in Hin.
Qed.

(** Property X18.  Without a [-c] with a non-empty argument no check is
    made: the run never reads a check file, and it exits 0 as soon as it
    has written anything to its output, so a run that exits 1 has written
    nothing. *)
Theorem no_c_option_is_no_check opts :
  first_check opts = None ->
  let r := main host opts in
  no_check_read (events r) /\
  (forall o text, In (EvOut o text) (events r) -> value r = 0%Z).
Proof.
  intros Hfc. cbn zeta. rewrite main_cases.
  pose proof (option_loop_cerr host opts "" initial_state) as Hcerr.
  fold (configure host opts) in Hcerr.
  destruct (value (configure host opts)) as [code|] eqn:Hcfg;
    cbn [value events].
  - split.
    + now apply cerr_only_no_check_read.
    + intros o text Hin. now apply (cerr_only_silent _ Hcerr) in Hin.
  - cbn zeta. cbn [value events].
    assert (Hc : mCheckFile (this (configured host opts)) = None).
    { destruct (option_loop_completes opts "" initial_state Hcfg)
        as (_ & Hc & _).
      unfold configured, configure. rewrite Hc, Hfc. reflexivity. }
    destruct (mInFile (this (configured host opts))) as [text|] eqn:Hopen.
    + rewrite (assemble_eq host _ text Hopen). cbn zeta.
      assert (Hc1 : mCheckFile (this (after_read (configured host opts))) =
                    None) by exact Hc.
      destruct (tryHalManifest_unchecked text _ Hc1) as [Hc2 Hn1].
      pose proof (fun o t => tryHalManifest_unchecked_out text _ o t Hc1)
        as Ho1.
      set (r1 := tryHalManifest host text (after_read (configured host opts)))
        in *.
      pose proof (tryCompatibilityMatrix_unchecked text _ Hc2) as Hn2.
      pose proof (fun o t => tryCompatibilityMatrix_unchecked_out text _ o t Hc2)
        as Ho2.
      set (r2 := tryCompatibilityMatrix host text (final r1)) in *.
      destruct (value r1) eqn:Hv1; cbn [value events exit_code].
      * split; [|reflexivity].
        intros Hin. apply in_app_or in Hin.
        destruct Hin as [Hin|[Hin|Hin]]; try discriminate.
        -- now apply (cerr_only_no_check_read _ Hcerr).
        -- now apply Hn1.
      * destruct (value r2) eqn:Hv2; cbn [value events exit_code].
        -- split; [|reflexivity].
           intros Hin. apply in_app_or in Hin.
           destruct Hin as [Hin|[Hin|Hin]]; try discriminate.
           ++ now apply (cerr_only_no_check_read _ Hcerr).
           ++ apply in_app_or in Hin. destruct Hin as [Hin|Hin];
                [now apply Hn1|now apply Hn2].
        -- split.
           ++ intros Hin. apply in_app_or in Hin.
              destruct Hin as [Hin|[Hin|Hin]]; try discriminate.
              ** now apply (cerr_only_no_check_read _ Hcerr).
              ** apply in_app_or in Hin. destruct Hin as [Hin|Hin];
                   [now apply Hn1|].
                 apply in_app_or in Hin. destruct Hin as [Hin|[Hin|[]]];
                   [now apply Hn2|discriminate].
           ++ intros o t Hin. apply in_app_or in Hin.
              destruct Hin as [Hin|[Hin|Hin]]; try discriminate.
              ** now apply (cerr_only_silent _ Hcerr) in Hin.
              ** apply in_app_or in Hin. destruct Hin as [Hin|Hin].
                 { apply Ho1 in Hin. discriminate. }
                 apply in_app_or in Hin. destruct Hin as [Hin|[Hin|[]]];
                   [|discriminate].
                 apply Ho2 in Hin. congruence.
    + rewrite (assemble_closed _ Hopen). cbn. split.
      * intros Hin. apply in_app_or in Hin. destruct Hin as [Hin|[Hin|[]]];
          [|discriminate].
        now apply (cerr_only_no_check_read _ Hcerr).
      * intros o t Hin. apply in_app_or in Hin. destruct Hin as [Hin|[Hin|[]]];
          [|discriminate].
        now apply (cerr_only_silent _ Hcerr) in Hin.
Qed.
End Extras.

(** ** Concrete runs *)

(** A text that parses both ways, a device manifest without its flag: the
    run enters the matrix procedure, writes the matrix and exits 0. *)
Lemma dual_valid_input_assembled_as_matrix :
  let h := Toy.host [] "both" "" in
  let opts := [Opt_i "in.xml"] in
  run_reads h opts "both" /\
  (exists hm,
     deserialize (XmlConverter := Toy.manifestConverter) "both" = inr hm) /\
  (exists cm,
     deserialize (XmlConverter := Toy.matrixConverter) "both" = inr cm) /\
  In (EvEnter AssembleCompatibilityMatrix)
     (events (main (L := Toy.lib) h opts)) /\
  value (main (L := Toy.lib) h opts) = 0%Z.
Proof.
  cbv zeta. split; [split; reflexivity|].
  split; [eexists; reflexivity|]. split; [eexists; reflexivity|].
  split; [in_concrete|reflexivity].
Qed.

(** A text that parses both ways and whose manifest assembles: exit 0,
    and the matrix procedure is not entered. *)
Lemma dual_valid_input_tries_manifest_first_witness :
  let h := Toy.host [("BOARD_SEPOLICY_VERS", "25.0")] "hals" "" in
  let opts := [Opt_i "in.xml"] in
  value (main (L := Toy.lib) h opts) = 0%Z /\
  ~ In (EvEnter AssembleCompatibilityMatrix)
      (events (main (L := Toy.lib) h opts)).
Proof.
  cbv zeta.
  refine (proj1 (proj2
    (@dual_valid_input_tries_manifest_first Toy.lib
       (Toy.host [("BOARD_SEPOLICY_VERS", "25.0")] "hals" "")
       [Opt_i "in.xml"] "hals"
       (Toy.manifest_of "hals") (Toy.matrix_of "hals")
       _ _ _)) _).
  - split; reflexivity.
  - reflexivity.
  - reflexivity.
  - reflexivity.
Defined.

(** A device manifest with [BOARD_SEPOLICY_VERS=25.0]. *)
Lemma device_manifest_gets_BOARD_SEPOLICY_VERS_witness :
  let h := Toy.host [("BOARD_SEPOLICY_VERS", "25.0")] "Md-hals" "" in
  let opts := [Opt_i "in.xml"] in
  value (main (L := Toy.lib) h opts) = 0%Z /\
  written (events (main (L := Toy.lib) h opts)) =
    "<manifest type=device sepolicy=25.0>Md-hals</manifest>".
Proof.
  cbv zeta.
  refine (proj2 (proj2
    (@device_manifest_gets_BOARD_SEPOLICY_VERS Toy.lib
       (Toy.host [("BOARD_SEPOLICY_VERS", "25.0")] "Md-hals" "")
       [Opt_i "in.xml"] "Md-hals"
       (Toy.manifest_of "Md-hals") "25.0" (mkVersion 25 0) _ _ _ _ _ _)) _).
  - split; reflexivity.
  - intros [H|[]]; discriminate.
  - reflexivity.
  - reflexivity.
  - reflexivity.
  - reflexivity.
  - exact I.
Defined.

(** A framework matrix with [POLICYVERS] unset and an output file. *)
Lemma framework_matrix_needs_POLICYVERS_witness :
  let h := Toy.host [("BOARD_SEPOLICY_VERS", "25.0")] "Xf-req" "" in
  let opts := [Opt_i "in.xml"; Opt_o "out.xml"] in
  value (main (L := Toy.lib) h opts) = 1%Z /\
  silent (events (main (L := Toy.lib) h opts)) /\
  written (events (main (L := Toy.lib) h opts)) = "".
Proof.
  cbv zeta.
  refine (@framework_matrix_needs_POLICYVERS Toy.lib
            (Toy.host [("BOARD_SEPOLICY_VERS", "25.0")] "Xf-req" "")
            [Opt_i "in.xml"; Opt_o "out.xml"] "Xf-req" "not a manifest"
            (Toy.matrix_of "Xf-req")
            (msg_required "POLICYVERS") _ _ _ _ _).
  - split; reflexivity.
  - reflexivity.
  - reflexivity.
  - reflexivity.
  - apply flag_absent. reflexivity.
Defined.

(** A manifest whose generated matrix fails the self check, with [-m]. *)
Lemma skeleton_emitted_despite_failed_self_check_witness :
  let h := Toy.host [("BOARD_SEPOLICY_VERS", "25.0")] "Md-many-hals" "" in
  let opts := [Opt_i "in.xml"; Opt_m] in
  value (main (L := Toy.lib) h opts) = 0%Z /\
  written (events (main (L := Toy.lib) h opts)) =
    skeleton_header ++
    "<compatibility-matrix type=framework kernel-sepolicy=0 sepolicy=>Md-many-+</compatibility-matrix>".
Proof.
  cbv zeta.
  refine (proj2
    (@skeleton_emitted_despite_failed_self_check Toy.lib
       (Toy.host [("BOARD_SEPOLICY_VERS", "25.0")] "Md-many-hals" "")
       [Opt_i "in.xml"; Opt_m] "Md-many-hals"
       (Toy.manifest_of "Md-many-hals")
       (HalManifest.set_mSepolicyVersion (Toy.manifest_of "Md-many-hals")
          (mkVersion 25 0))
       "manifest is not a prefix of matrix" _ _ _ _ _) _).
  - split; reflexivity.
  - right; left; reflexivity.
  - reflexivity.
  - apply (inject_device_manifest (L := Toy.lib) _ _ "25.0" (mkVersion 25 0));
      reflexivity.
  - reflexivity.
  - exact I.
Defined.



(** A device manifest whose flag is absent, in a text that also parses as
    a matrix: the lookup is made and its diagnostic logged, and the run
    exits 0 with a document written. *)
Lemma absent_flag_yet_exit_0 :
  let h := Toy.host [] "hals" "" in
  let opts := [Opt_i "in.xml"] in
  getenv h "BOARD_SEPOLICY_VERS" = None /\
  In (EvGetenv "BOARD_SEPOLICY_VERS") (events (main (L := Toy.lib) h opts)) /\
  In (EvCerr (msg_required "BOARD_SEPOLICY_VERS"))
     (events (main (L := Toy.lib) h opts)) /\
  value (main (L := Toy.lib) h opts) = 0%Z /\
  written (events (main (L := Toy.lib) h opts)) =
    "<compatibility-matrix type=device kernel-sepolicy=0 sepolicy=>hals</compatibility-matrix>".
Proof.
  cbv zeta. split; [reflexivity|]. split; [in_concrete|].
  split; [in_concrete|]. split; reflexivity.
Qed.

(** A flag that does not parse for a manifest, a missing flag for a matrix. *)
Lemma failed_lookup_fails_assembly_witness :
  let h1 := Toy.host [("BOARD_SEPOLICY_VERS", "25")] "Md-hals" "" in
  let h2 := Toy.host [("BOARD_SEPOLICY_VERS", "25.0")] "Xf-req" "" in
  let opts := [Opt_i "in.xml"] in
  (value (main (L := Toy.lib) h1 opts) = 1%Z /\
   In (EvCerr (msg_cannot_parse "25")) (events (main (L := Toy.lib) h1 opts)) /\
   silent (events (main (L := Toy.lib) h1 opts))) /\
  (value (main (L := Toy.lib) h2 opts) = 1%Z /\
   In (EvCerr (msg_required "POLICYVERS"))
      (events (main (L := Toy.lib) h2 opts))).
Proof.
  cbv zeta. split.
  - pose proof
      (@failed_lookup_fails_assembly Toy.lib
         (Toy.host [("BOARD_SEPOLICY_VERS", "25")] "Md-hals" "")
         [Opt_i "in.xml"] "Md-hals" (conj eq_refl eq_refl)) as H.
    cbv zeta in H. destruct H as (_ & Hmanifest & _).
    destruct (Hmanifest (Toy.manifest_of "Md-hals") (msg_cannot_parse "25"))
      as (_ & _ & Hd & _ & Hsingle).
    + reflexivity.
    + reflexivity.
    + apply (flag_unparseable _ _ _ "25"); reflexivity.
    + destruct (Hsingle "not a matrix" eq_refl) as [Hexit Hsilent].
      split; [exact Hexit|]. split; [exact Hd|exact Hsilent].
  - pose proof
      (@failed_lookup_fails_assembly Toy.lib
         (Toy.host [("BOARD_SEPOLICY_VERS", "25.0")] "Xf-req" "")
         [Opt_i "in.xml"] "Xf-req" (conj eq_refl eq_refl)) as H.
    cbv zeta in H. destruct H as (_ & _ & Hmatrix).
    destruct (Hmatrix (Toy.matrix_of "Xf-req") (msg_required "POLICYVERS"))
      as (_ & _ & Hd & Hexit).
    + reflexivity.
    + reflexivity.
    + reflexivity.
    + apply (second_flag_fails (L := Toy.lib) _ _ "25.0" (mkVersion 25 0));
        try reflexivity.
      apply flag_absent. reflexivity.
    + split; [exact Hexit|exact Hd].
Defined.

(** A text of neither kind, with an empty [-c] argument. *)
Lemma unknown_format_reports_both_errors_witness :
  let h := Toy.host [] "?junk" "" in
  let opts := [Opt_i "in.xml"; Opt_c ""] in
  value (main (L := Toy.lib) h opts) = 1%Z /\
  events (main (L := Toy.lib) h opts) =
    [EvCerr (msg_no_check "in.xml"); EvRead InFile;
     EvCerr (msg_unknown_format "not a manifest" "not a matrix")] /\
  silent (events (main (L := Toy.lib) h opts)).
Proof.
  cbv zeta.
  destruct
    (@unknown_format_reports_both_errors Toy.lib
       (Toy.host [] "?junk" "") [Opt_i "in.xml"; Opt_c ""] "?junk"
       "not a manifest" "not a matrix" (conj eq_refl eq_refl) eq_refl eq_refl)
    as (Hexit & Hev & _ & Hsilent).
  split; [exact Hexit|]. split; [exact Hev|exact Hsilent].
Defined.

(** A framework manifest assembled with [-m]: the parsed manifest is not
    what is written; the output is the comment and the generated matrix. *)
Lemma framework_manifest_with_m_not_serialized :
  let h := Toy.host [] "Mf-hals" "" in
  let opts := [Opt_i "in.xml"; Opt_m] in
  let hm := Toy.manifest_of "Mf-hals" in
  run_reads h opts "Mf-hals" /\
  deserialize (XmlConverter := Toy.manifestConverter) "Mf-hals" = inr hm /\
  HalManifest.mType hm = FRAMEWORK /\
  value (main (L := Toy.lib) h opts) = 0%Z /\
  written (events (main (L := Toy.lib) h opts)) =
    skeleton_header ++
    "<compatibility-matrix type=device kernel-sepolicy=0 sepolicy=>Mf-hals+</compatibility-matrix>" /\
  String.eqb (written (events (main (L := Toy.lib) h opts)))
    (serialize (XmlConverter := Toy.manifestConverter) hm) = false /\
  existsb
    (fun e =>
       match e with
       | EvOut _ text =>
           String.eqb text (serialize (XmlConverter := Toy.manifestConverter) hm)
       | _ => false
       end)
    (events (main (L := Toy.lib) h opts)) = false.
Proof.
  cbv zeta. split; [split; reflexivity|]. repeat split; reflexivity.
Qed.

(** A framework manifest and a device matrix, no [-m]. *)
Lemma other_kinds_left_unchanged_witness :
  let h := Toy.host [] "Mf-hals" "" in
  let s := configured h [Opt_i "in.xml"] in
  let hm := Toy.manifest_of "Mf-hals" in
  let cm := Toy.matrix_of "Xd-req" in
  (snd (value (assembleHalManifest (L := Toy.lib) h hm s)) = hm /\
   written (events (assembleHalManifest (L := Toy.lib) h hm s)) =
     "<manifest type=framework sepolicy=0.0>Mf-hals</manifest>") /\
  (snd (value (assembleCompatibilityMatrix (L := Toy.lib) h cm s)) = cm /\
   written (events (assembleCompatibilityMatrix (L := Toy.lib) h cm s)) =
     "<compatibility-matrix type=device kernel-sepolicy=0 sepolicy=>Xd-req</compatibility-matrix>").
Proof.
  cbv zeta.
  destruct
    (@other_kinds_left_unchanged Toy.lib (Toy.host [] "Mf-hals" "")
       (Toy.manifest_of "Mf-hals") (Toy.matrix_of "Xd-req")
       (configured (Toy.host [] "Mf-hals" "") [Opt_i "in.xml"])
       eq_refl eq_refl)
    as ((Hm & _ & Hplain & _) & (Hx & _ & Hw)).
  split; split; [exact Hm|exact (Hplain eq_refl)|exact Hx|exact Hw].
Defined.

(** A device manifest without its flag, in a text that is also a matrix. *)
Lemma failed_manifest_assembly_falls_through_witness :
  let h := Toy.host [] "hals" "" in
  let opts := [Opt_i "in.xml"; Opt_o "out.xml"] in
  value (main (L := Toy.lib) h opts) = 0%Z /\
  matrix_injection (L := Toy.lib) h (Toy.matrix_of "hals")
    (Toy.matrix_of "hals") /\
  In (EvOut (out_file (Some "out.xml"))
        "<compatibility-matrix type=device kernel-sepolicy=0 sepolicy=>hals</compatibility-matrix>")
     (events (main (L := Toy.lib) h opts)).
Proof.
  cbv zeta.
  pose proof
    (@failed_manifest_assembly_falls_through Toy.lib (Toy.host [] "hals" "")
       [Opt_i "in.xml"; Opt_o "out.xml"] "hals" (Toy.manifest_of "hals")
       (conj eq_refl eq_refl) eq_refl eq_refl) as (_ & Hmatrix).
  destruct (Hmatrix (Toy.matrix_of "hals") eq_refl) as (_ & _ & Hok).
  exact (Hok eq_refl).
Defined.

(** A framework matrix that already holds a requirement. *)
Lemma framework_matrix_sepolicy_replaced_witness :
  let h := Toy.host [("BOARD_SEPOLICY_VERS", "25.3"); ("POLICYVERS", "30")]
             "Xf-req" "" in
  let s := configured h [Opt_i "in.xml"] in
  let cm :=
    CompatibilityMatrix.set_mSepolicy (Toy.matrix_of "Xf-req")
      (mkSepolicy 29%N [(24, 0); (25, 0)]%N) in
  let r := assembleCompatibilityMatrix (L := Toy.lib) h cm s in
  CompatibilityMatrix.mSepolicy (CompatibilityMatrix.framework (snd (value r)))
    = mkSepolicy 30%N [(25, 3)]%N /\
  written (events r) =
    "<compatibility-matrix type=framework kernel-sepolicy=30 sepolicy=25.3>Xf-req</compatibility-matrix>".
Proof.
  cbv zeta.
  destruct
    (@framework_matrix_sepolicy_replaced Toy.lib
       (Toy.host [("BOARD_SEPOLICY_VERS", "25.3"); ("POLICYVERS", "30")]
          "Xf-req" "")
       (CompatibilityMatrix.set_mSepolicy (Toy.matrix_of "Xf-req")
          (mkSepolicy 29%N [(24, 0); (25, 0)]%N))
       "25.3" (mkVersion 25 3) "30" 30%N
       (configured
          (Toy.host [("BOARD_SEPOLICY_VERS", "25.3"); ("POLICYVERS", "30")]
             "Xf-req" "")
          [Opt_i "in.xml"])
       eq_refl eq_refl eq_refl eq_refl eq_refl)
    as (Hsepolicy & _ & _).
  split; [exact Hsepolicy|reflexivity].
Defined.


(** *** Runs for the further properties *)

(** An input file that cannot be opened. *)
Lemma return_from_option_loop_is_exit_1_witness :
  let h := Toy.host [] "hals" "" in
  let opts := [Opt_o "out.xml"; Opt_i "missing.xml"; Opt_i "in.xml"] in
  value (configure h opts) = Some 1%Z /\
  value (main (L := Toy.lib) h opts) = 1%Z /\
  forallb is_cerr (events (main (L := Toy.lib) h opts)) = true.
Proof.
  cbv zeta. split; [reflexivity|].
  pose proof (@return_from_option_loop_is_exit_1 Toy.lib
                (Toy.host [] "hals" "")
                [Opt_o "out.xml"; Opt_i "missing.xml"; Opt_i "in.xml"] 1%Z
                eq_refl) as H.
  cbv zeta in H. destruct H as (H1 & H2 & _). split; assumption.
Defined.


(** Two [-o]: the last one is the output. *)
Lemma output_is_the_last_o_witness :
  let h := Toy.host [] "hals" "" in
  let opts := [Opt_o "a.xml"; Opt_i "in.xml"; Opt_o "b.xml"] in
  value (configure h opts) = None /\
  out_stream h opts = out_file (Some "b.xml").
Proof.
  cbv zeta. split; [reflexivity|].
  exact (output_is_the_last_o (Toy.host [] "hals" "")
           [Opt_o "a.xml"; Opt_i "in.xml"; Opt_o "b.xml"] eq_refl).
Defined.


(** No [-i] at all. *)
Lemma no_i_option_is_missing_input_witness :
  let h := Toy.host [] "hals" "" in
  let opts := [Opt_m; Opt_o "out.xml"] in
  value (main (L := Toy.lib) h opts) = 1%Z /\
  events (main (L := Toy.lib) h opts) =
    [EvCerr ("Missing input file." ++ endl)].
Proof.
  cbv zeta.
  exact (@no_i_option_is_missing_input Toy.lib (Toy.host [] "hals" "")
           [Opt_m; Opt_o "out.xml"] eq_refl eq_refl).
Defined.


(** [-h], and an option that [getopt_long] refuses, after the input was
    opened. *)
Lemma help_stops_the_run_witness :
  let h := Toy.host [] "hals" "" in
  let refused := "assemble_vintf: invalid option -- 'x'" ++ endl in
  let r := main (L := Toy.lib) h [Opt_i "in.xml"; Opt_h; Opt_o "out.xml"] in
  let r' :=
    main (L := Toy.lib) h
      [Opt_i "in.xml"; Opt_unrecognized refused; Opt_o "out.xml"] in
  (value r = 1%Z /\
   final r = configured h [Opt_i "in.xml"] /\
   events r = [EvCerr help_text]) /\
  (value r' = 1%Z /\
   final r' = configured h [Opt_i "in.xml"] /\
   events r' = [EvCerr refused; EvCerr help_text]).
Proof.
  cbv zeta. split.
  - exact (@help_stops_the_run Toy.lib (Toy.host [] "hals" "")
             [Opt_i "in.xml"] Opt_h [Opt_o "out.xml"] eq_refl eq_refl).
  - exact (@help_stops_the_run Toy.lib (Toy.host [] "hals" "")
             [Opt_i "in.xml"]
             (Opt_unrecognized ("assemble_vintf: invalid option -- 'x'" ++ endl))
             [Opt_o "out.xml"] eq_refl eq_refl).
Defined.

(** An empty [-c] between [-i] and [-o]. *)
Lemma empty_c_only_warns_witness :
  let h := Toy.host [("BOARD_SEPOLICY_VERS", "25.0")] "Md-hals" "" in
  let r := main (L := Toy.lib) h [Opt_i "in.xml"; Opt_c ""; Opt_o "out.xml"] in
  let r' := main (L := Toy.lib) h [Opt_i "in.xml"; Opt_o "out.xml"] in
  value r = value r' /\
  final r = final r' /\
  exists tail,
    events r' = tail /\
    events r = EvCerr (msg_no_check "in.xml") :: tail.
Proof.
  cbv zeta.
  exact (@empty_c_only_warns Toy.lib
           (Toy.host [("BOARD_SEPOLICY_VERS", "25.0")] "Md-hals" "")
           [Opt_i "in.xml"] [Opt_o "out.xml"] eq_refl).
Defined.

(** A device manifest written to an output file. *)
Lemma writes_go_to_one_stream_witness :
  let h := Toy.host [("BOARD_SEPOLICY_VERS", "25.0")] "Md-hals" "" in
  let opts := [Opt_i "in.xml"; Opt_o "out.xml"] in
  In (EvFlush (out_file (Some "out.xml"))) (events (main (L := Toy.lib) h opts))
  /\
  on_stream (out_stream h opts) (EvFlush (out_file (Some "out.xml"))).
Proof.
  cbv zeta.
  assert (H : In (EvFlush (out_file (Some "out.xml")))
                (events
                   (main (L := Toy.lib)
                      (Toy.host [("BOARD_SEPOLICY_VERS", "25.0")] "Md-hals" "")
                      [Opt_i "in.xml"; Opt_o "out.xml"]))).
  { in_concrete. }
  split; [exact H|].
  exact (@writes_go_to_one_stream Toy.lib _ _ _ H).
Defined.

(** A device manifest: its flag is looked up. *)
Lemma only_two_variables_looked_up_witness :
  let h := Toy.host [("BOARD_SEPOLICY_VERS", "25.0")] "Md-hals" "" in
  let opts := [Opt_i "in.xml"] in
  let key := "BOARD_SEPOLICY_VERS" in
  In (EvGetenv key) (events (main (L := Toy.lib) h opts)) /\
  (key = "BOARD_SEPOLICY_VERS" \/ key = "POLICYVERS").
Proof.
  cbv zeta.
  assert (H : In (EvGetenv "BOARD_SEPOLICY_VERS")
                (events
                   (main (L := Toy.lib)
                      (Toy.host [("BOARD_SEPOLICY_VERS", "25.0")] "Md-hals" "")
                      [Opt_i "in.xml"]))).
  { in_concrete. }
  split; [exact H|].
  exact (@only_two_variables_looked_up Toy.lib _ _ _ H).
Defined.

(** The same run in an environment that also holds [PATH]. *)
Lemma run_depends_on_two_variables_witness :
  let h := Toy.host [("BOARD_SEPOLICY_VERS", "25.0")] "Md-hals" "" in
  let env :=
    getenv (Toy.host [("PATH", "/bin"); ("BOARD_SEPOLICY_VERS", "25.0")] "" "")
  in
  let opts := [Opt_i "in.xml"] in
  env "PATH" = Some "/bin" /\
  getenv h "PATH" = None /\
  main (L := Toy.lib) (with_getenv env h) opts = main (L := Toy.lib) h opts.
Proof.
  cbv zeta. split; [reflexivity|]. split; [reflexivity|].
  exact (@run_depends_on_two_variables Toy.lib
           (Toy.host [("BOARD_SEPOLICY_VERS", "25.0")] "Md-hals" "")
           (getenv (Toy.host [("PATH", "/bin");
                              ("BOARD_SEPOLICY_VERS", "25.0")] "" ""))
           [Opt_i "in.xml"] eq_refl eq_refl).
Defined.

(** A device manifest checked against a matrix that accepts it. *)
Lemma exit_0_means_written_and_flushed_witness :
  let h := Toy.host [("BOARD_SEPOLICY_VERS", "25.0")] "hals" "hals-and-more" in
  let opts := [Opt_i "in.xml"; Opt_c "ref.xml"] in
  value (main (L := Toy.lib) h opts) = 0%Z /\
  exists before text after,
    events (main (L := Toy.lib) h opts) =
      (before ++
       [EvOut (out_stream h opts) text; EvFlush (out_stream h opts)] ++
       after)%list /\
    (after = [] \/ after = [EvRead CheckFile]).
Proof.
  cbv zeta. split; [reflexivity|].
  exact (@exit_0_means_written_and_flushed Toy.lib
           (Toy.host [("BOARD_SEPOLICY_VERS", "25.0")] "hals" "hals-and-more")
           [Opt_i "in.xml"; Opt_c "ref.xml"] eq_refl).
Defined.

(** A device manifest without its flag, which is no matrix either. *)
Lemma exit_1_ends_with_diagnostic_witness :
  let h := Toy.host [] "Md-hals" "" in
  let opts := [Opt_i "in.xml"] in
  let r := main (L := Toy.lib) h opts in
  value r = 1%Z /\
  run_reads h opts "Md-hals" /\
  exists before,
    events r =
      (before ++
       [EvCerr (msg_unknown_format (manifestLastError (final r))
                  (matrixLastError (final r)))])%list.
Proof.
  cbv zeta. split; [reflexivity|].
  assert (H : run_reads (Toy.host [] "Md-hals" "") [Opt_i "in.xml"] "Md-hals")
    by (split; reflexivity).
  split; [exact H|].
  exact (proj2 (@exit_1_ends_with_diagnostic Toy.lib
                  (Toy.host [] "Md-hals" "") [Opt_i "in.xml"] eq_refl)
           "Md-hals" H).
Defined.

(** A device matrix, with and without [-m]. *)
Lemma m_is_ignored_unless_input_is_a_manifest_witness :
  let h := Toy.host [] "Xd-req" "" in
  let r := main (L := Toy.lib) h [Opt_i "in.xml"; Opt_m; Opt_o "out.xml"] in
  let r' := main (L := Toy.lib) h [Opt_i "in.xml"; Opt_o "out.xml"] in
  value r = value r' /\
  events r = events r' /\
  final r = with_mOutputMatrix true (final r').
Proof.
  cbv zeta.
  refine (@m_is_ignored_unless_input_is_a_manifest Toy.lib
            (Toy.host [] "Xd-req" "") [Opt_i "in.xml"] [Opt_o "out.xml"]
            "Xd-req" "not a manifest" _ eq_refl).
  split; reflexivity.
Defined.

(** A text that parses both ways, with a reference its manifest is not
    compatible with: the matrix attempt checks against the empty text,
    which the small libvintf takes for a manifest that every matrix
    accepts. *)
Lemma check_file_is_read_once_witness :
  let h := Toy.host [("BOARD_SEPOLICY_VERS", "25.0")] "hals" "Xother" in
  let opts := [Opt_i "in.xml"; Opt_c "ref.xml"] in
  let r1 :=
    tryHalManifest (L := Toy.lib) h "hals" (after_read (configured h opts)) in
  let r := main (L := Toy.lib) h opts in
  value r1 = false /\
  mCheckFile (this (final r1)) = Some "" /\
  value r = 0%Z /\
  written (events r) =
    "<manifest type=device sepolicy=25.0>hals</manifest>" ++
    "<compatibility-matrix type=device kernel-sepolicy=0 sepolicy=>hals</compatibility-matrix>".
Proof.
  cbv zeta. split; [reflexivity|].
  assert (Hrun : run_reads
                   (Toy.host [("BOARD_SEPOLICY_VERS", "25.0")] "hals" "Xother")
                   [Opt_i "in.xml"; Opt_c "ref.xml"] "hals")
    by (split; reflexivity).
  assert (Hinj : manifest_injection (L := Toy.lib)
                   (Toy.host [("BOARD_SEPOLICY_VERS", "25.0")] "hals" "Xother")
                   (Toy.manifest_of "hals")
                   (HalManifest.set_mSepolicyVersion (Toy.manifest_of "hals")
                      (mkVersion 25 0))).
  { apply (inject_device_manifest (L := Toy.lib) _ _ "25.0" (mkVersion 25 0));
      reflexivity. }
  pose proof (@check_file_is_read_once Toy.lib _ _ "hals" _ _ "Xother"
                Hrun eq_refl eq_refl Hinj) as H.
  cbv zeta in H. destruct H as [H1 H2]. split; [exact H1|].
  assert (Hinj2 : matrix_injection (L := Toy.lib)
                    (Toy.host [("BOARD_SEPOLICY_VERS", "25.0")] "hals"
                       "Xother")
                    (Toy.matrix_of "hals") (Toy.matrix_of "hals")).
  { apply inject_device_matrix. reflexivity. }
  exact (H2 (Toy.matrix_of "hals") (Toy.matrix_of "hals") eq_refl eq_refl
           Hinj2).
Defined.

(** A framework matrix with [BOARD_SEPOLICY_VERS] set and [POLICYVERS]
    missing: the second flag is looked up. *)
Lemma POLICYVERS_is_looked_up_last_witness :
  let h := Toy.host [("BOARD_SEPOLICY_VERS", "25.0")] "Xf-req" "" in
  let opts := [Opt_i "in.xml"] in
  In (EvGetenv "POLICYVERS") (events (main (L := Toy.lib) h opts)) /\
  exists text cm raw v,
    run_reads h opts text /\
    deserialize (XmlConverter := Toy.matrixConverter) text = inr cm /\
    CompatibilityMatrix.mType cm = FRAMEWORK /\
    getenv h "BOARD_SEPOLICY_VERS" = Some raw /\
    Toy.parseVersion raw = Some v.
Proof.
  cbv zeta.
  assert (H : In (EvGetenv "POLICYVERS")
                (events
                   (main (L := Toy.lib)
                      (Toy.host [("BOARD_SEPOLICY_VERS", "25.0")] "Xf-req" "")
                      [Opt_i "in.xml"]))).
  { in_concrete. }
  split; [exact H|].
  exact (@POLICYVERS_is_looked_up_last Toy.lib _ _ H).
Defined.

(** A device manifest without its flag and without [-c]: nothing is
    written and no check file read. *)
Lemma no_c_option_is_no_check_witness :
  let h := Toy.host [] "Md-hals" "Xd-req" in
  let opts := [Opt_i "in.xml"; Opt_c ""] in
  let r := main (L := Toy.lib) h opts in
  first_check opts = None /\
  no_check_read (events r) /\
  (forall o text, In (EvOut o text) (events r) -> value r = 0%Z).
Proof.
  cbv zeta. split; [reflexivity|].
  exact (@no_c_option_is_no_check Toy.lib (Toy.host [] "Md-hals" "Xd-req")
           [Opt_i "in.xml"; Opt_c ""] eq_refl).
Defined.
